(** * english-collector: the analysis endpoint

    A shallow embedding of [src/api/analyze.js] (module [Analyze]) and of the
    older copy of the same endpoint kept in the repository
    ([src/unnamed/part_000], module [Part000]), together with the parts of the
    JavaScript runtime the two files rely on: strings of UTF-16 code units,
    JSON values, truthiness, property access, the regular expressions of
    [parseAIResponse], [JSON.parse] and [fetch]. *)

From Stdlib Require Import List NArith ZArith Lia Bool String Ascii.
Import ListNotations.

Set Implicit Arguments.

(** ** Strings

    A JavaScript string is a sequence of 16-bit code units. *)

Definition code_unit := N.
Definition str := list code_unit.

(** [lit "abc"] is the string whose code units are the bytes of the literal. *)
Definition lit (s : string) : str :=
  List.map N_of_ascii (list_ascii_of_string s).

(** [q "{'a':1}"] is [lit] with every apostrophe standing for a double quote,
    to write JSON texts. *)
Definition q (s : string) : str :=
  List.map (fun c => if N.eqb c 39 then 34 else c)%N (lit s).

Fixpoint str_eqb (a b : str) : bool :=
  match a, b with
  | [], [] => true
  | x :: a', y :: b' => N.eqb x y && str_eqb a' b'
  | _, _ => false
  end.

(** WhiteSpace and LineTerminator of ECMAScript: what [String.prototype.trim]
    strips and what [\s] matches. *)
Definition is_white_space (c : code_unit) : bool :=
  ((c =? 9) || (c =? 10) || (c =? 11) || (c =? 12) || (c =? 13) || (c =? 32)
   || (c =? 160) || (c =? 5760) || ((8192 <=? c) && (c <=? 8202))
   || (c =? 8232) || (c =? 8233) || (c =? 8239) || (c =? 8287)
   || (c =? 12288) || (c =? 65279))%N.

Fixpoint trimStart (s : str) : str :=
  match s with
  | c :: s' => if is_white_space c then trimStart s' else s
  | [] => []
  end.

Definition trimEnd (s : str) : str := rev (trimStart (rev s)).

(** [text.trim()] *)
Definition trim (s : str) : str := trimEnd (trimStart s).

(** ** JSON values

    A Number that came out of [JSON.parse] is kept as the decimal literal it
    was read from, [(-1)^neg * mant * 10^exp10]: the Number itself is the
    binary64 value nearest to it. The program only ever tests such a Number
    for truthiness. *)

Record number := Num { neg : bool; mant : N; exp10 : Z }.

Unset Elimination Schemes.
Inductive value :=
| JNull
| JBool (b : bool)
| JNum (n : number)
| JString (s : str)
| JArray (l : list value)
| JObject (m : list (str * value)).
Set Elimination Schemes.

(** A JavaScript expression evaluates to a value or to [undefined]. *)
Definition jsval := option value.
Definition undefined : jsval := None.

(** The decimal [mant * 10^exp10] rounds to zero in binary64 exactly when it
    is at most [2^-1075], half of the least subnormal (ties go to the even
    significand, which is zero). *)
Definition number_is_zero (n : number) : bool :=
  (mant n =? 0)%N
  || ((exp10 n <? 0)%Z
      && (Z.of_N (mant n) * 2 ^ 1075 <=? 10 ^ (- exp10 n))%Z).

(** ToBoolean *)
Definition truthy (v : value) : bool :=
  match v with
  | JNull => false
  | JBool b => b
  | JNum n => negb (number_is_zero n)
  | JString s => match s with [] => false | _ => true end
  | JArray _ => true
  | JObject _ => true
  end.

Definition truthy_opt (v : jsval) : bool :=
  match v with
  | None => false
  | Some v => truthy v
  end.

(** [a || b] where [b] is a value *)
Definition or_else (a : jsval) (b : value) : value :=
  match a with
  | Some v => if truthy v then v else b
  | None => b
  end.

(** ** Objects

    An object is the list of its own properties in creation order; keys are
    unique. *)

Definition object := list (str * value).

Fixpoint own (k : str) (m : object) : jsval :=
  match m with
  | [] => None
  | (k', v) :: m' => if str_eqb k k' then Some v else own k m'
  end.

(** [o[k] = v]: an existing property keeps its place, a new one goes last. *)
Fixpoint set (k : str) (v : value) (m : object) : object :=
  match m with
  | [] => [(k, v)]
  | (k', v') :: m' =>
      if str_eqb k k' then (k', v) :: m' else (k', v') :: set k v m'
  end.

(** A canonical array index: decimal digits without a leading zero. *)
Definition is_digit (c : code_unit) : bool := ((48 <=? c) && (c <=? 57))%N.

Fixpoint digits_value (acc : N) (s : str) : option N :=
  match s with
  | [] => Some acc
  | c :: s' =>
      if is_digit c then digits_value (acc * 10 + (c - 48))%N s' else None
  end.

Definition array_index (k : str) : option nat :=
  match k with
  | [] => None
  | [c] => if is_digit c then Some (N.to_nat (c - 48)) else None
  | c :: _ =>
      if (c =? 48)%N then None
      else option_map N.to_nat (digits_value 0 k)
  end.

Definition number_of_nat (n : nat) : number := Num false (N.of_nat n) 0.

(** [v.k] and [v[k]] for a [v] that is neither [null] nor [undefined]. The
    members that the built-in prototypes add (methods and the like) are not
    modelled: none of the names read by the program is one of them. *)
Definition Get (v : value) (k : str) : jsval :=
  match v with
  | JObject m => own k m
  | JArray l =>
      match array_index k with
      | Some i => nth_error l i
      | None =>
          if str_eqb k (lit "length")
          then Some (JNum (number_of_nat (List.length l))) else None
      end
  | JString s =>
      match array_index k with
      | Some i => option_map (fun c => JString [c]) (nth_error s i)
      | None =>
          if str_eqb k (lit "length")
          then Some (JNum (number_of_nat (List.length s))) else None
      end
  | _ => None
  end.

(** [a?.k] and [a?.[k]] *)
Definition opt_chain (a : jsval) (k : str) : jsval :=
  match a with
  | None | Some JNull => None
  | Some v => Get v k
  end.

(** ** Regular expressions

    The four patterns of [parseAIResponse] are sequences of anchors, literal
    characters and greedy stars of a character class; [exec] is the
    backtracking matcher of the language for such sequences. *)

Inductive atom :=
| Bol                              (* ^ *)
| Eol                              (* $ *)
| Chr (c : code_unit)              (* a literal character *)
| Star (p : code_unit -> bool).    (* cls*, greedy *)

Definition regex := list atom.

(** Canonicalize of the [i] flag on a pattern without the [u] flag maps a
    character to its upper case, and never maps a character outside ASCII
    into ASCII: against the ASCII literals of these patterns it is the upper
    case of the letters a to z. *)
Definition canonicalize (c : code_unit) : code_unit :=
  if ((97 <=? c) && (c <=? 122))%N then (c - 32)%N else c.

Definition chr_matches (ignoreCase : bool) (c ch : code_unit) : bool :=
  if ignoreCase then (canonicalize c =? canonicalize ch)%N else (c =? ch)%N.

(** [match_here i r b s]: the pattern [r] matched at the head of [s], where
    [b] tells whether the head of [s] is the start of the input; the result
    is the number of characters consumed by the first successful
    alternative. *)
Fixpoint match_here (i : bool) (r : regex) : bool -> str -> option nat :=
  match r with
  | [] => fun _ _ => Some 0
  | Bol :: r' => fun b s => if b then match_here i r' b s else None
  | Eol :: r' =>
      fun b s => match s with [] => match_here i r' b s | _ :: _ => None end
  | Chr c :: r' =>
      fun _ s =>
        match s with
        | ch :: s' =>
            if chr_matches i c ch
            then option_map S (match_here i r' false s') else None
        | [] => None
        end
  | Star p :: r' =>
      fix star (b : bool) (s : str) : option nat :=
        match s with
        | ch :: s' =>
            if p ch then
              match star false s' with
              | Some n => Some (S n)
              | None => match_here i r' b s
              end
            else match_here i r' b s
        | [] => match_here i r' b s
        end
  end.

(** The leftmost match: its start index and its length. *)
Fixpoint exec_from (i : bool) (r : regex) (b : bool) (s : str)
  : option (nat * nat) :=
  match match_here i r b s with
  | Some n => Some (0, n)
  | None =>
      match s with
      | [] => None
      | _ :: s' =>
          option_map (fun m => (S (fst m), snd m)) (exec_from i r false s')
      end
  end.

Definition exec (i : bool) (r : regex) (s : str) : option (nat * nat) :=
  exec_from i r true s.

(** [s.replace(r, '')] for a pattern without the [g] flag *)
Definition replace_empty (i : bool) (r : regex) (s : str) : str :=
  match exec i r s with
  | Some (start, n) => firstn start s ++ skipn (start + n) s
  | None => s
  end.

(** [s.match(r)]: [Some m] where [m] is element 0 of the match array, or
    [None] for [null] *)
Definition match_ (i : bool) (r : regex) (s : str) : option str :=
  match exec i r s with
  | Some (start, n) => Some (firstn n (skipn start s))
  | None => None
  end.

Definition any_char (_ : code_unit) : bool := true.

Definition BACKTICK : code_unit := 96%N.
Definition LBRACE : code_unit := 123%N.
Definition RBRACE : code_unit := 125%N.

(** [/^```json\s*/i] *)
Definition re_fence_json : regex :=
  [Bol; Chr BACKTICK; Chr BACKTICK; Chr BACKTICK;
   Chr 106%N; Chr 115%N; Chr 111%N; Chr 110%N; Star is_white_space].

(** [/^```\s*/i] *)
Definition re_fence_open : regex :=
  [Bol; Chr BACKTICK; Chr BACKTICK; Chr BACKTICK; Star is_white_space].

(** [/\s*```$/i] *)
Definition re_fence_close : regex :=
  [Star is_white_space; Chr BACKTICK; Chr BACKTICK; Chr BACKTICK; Eol].

(** [/\{[\s\S]*\}/] *)
Definition re_braces : regex := [Chr LBRACE; Star any_char; Chr RBRACE].

(** ** JSON.parse

    The JSON grammar of ECMA-404 on code units. [fuel] bounds the number of
    nested calls; [JSON_parse] gives one more than the length of the text. *)

Definition is_json_ws (c : code_unit) : bool :=
  ((c =? 32) || (c =? 9) || (c =? 10) || (c =? 13))%N.

Fixpoint skip_ws (s : str) : str :=
  match s with
  | c :: s' => if is_json_ws c then skip_ws s' else s
  | [] => []
  end.

Definition head_is (c : code_unit) (s : str) : bool :=
  match s with
  | x :: _ => (x =? c)%N
  | [] => false
  end.

Fixpoint strip_prefix (p s : str) : option str :=
  match p, s with
  | [], _ => Some s
  | a :: p', b :: s' => if (a =? b)%N then strip_prefix p' s' else None
  | _ :: _, [] => None
  end.

Definition hex_value (c : code_unit) : option N :=
  if is_digit c then Some (c - 48)%N
  else if ((97 <=? c) && (c <=? 102))%N then Some (c - 87)%N
  else if ((65 <=? c) && (c <=? 70))%N then Some (c - 55)%N
  else None.

Definition hex4 (a b c d : code_unit) : option code_unit :=
  match hex_value a, hex_value b, hex_value c, hex_value d with
  | Some x, Some y, Some z, Some w => Some (((x * 16 + y) * 16 + z) * 16 + w)%N
  | _, _, _, _ => None
  end.

(** The character an escape letter stands for. *)
Definition unescape (e : code_unit) : option code_unit :=
  (if e =? 34 then Some 34          (* the quote *)
   else if e =? 92 then Some 92     (* the backslash *)
   else if e =? 47 then Some 47     (* the solidus *)
   else if e =? 98 then Some 8      (* \b *)
   else if e =? 102 then Some 12    (* \f *)
   else if e =? 110 then Some 10    (* \n *)
   else if e =? 114 then Some 13    (* \r *)
   else if e =? 116 then Some 9     (* \t *)
   else None)%N.

(** The characters of a string literal after its opening quote, through the
    closing quote. *)
Fixpoint parse_chars (s : str) : option (str * str) :=
  match s with
  | [] => None
  | c :: s' =>
      if (c =? 34)%N then Some ([], s')
      else if (c =? 92)%N then
        match s' with
        | [] => None
        | e :: s'' =>
            if (e =? 117)%N then
              match s'' with
              | h1 :: h2 :: h3 :: h4 :: s3 =>
                  match hex4 h1 h2 h3 h4, parse_chars s3 with
                  | Some u, Some (t, r) => Some (u :: t, r)
                  | _, _ => None
                  end
              | _ => None
              end
            else
              match unescape e, parse_chars s'' with
              | Some u, Some (t, r) => Some (u :: t, r)
              | _, _ => None
              end
        end
      else if (c <? 32)%N then None
      else
        match parse_chars s' with
        | Some (t, r) => Some (c :: t, r)
        | None => None
        end
  end.

Fixpoint take_digits (s : str) : str * str :=
  match s with
  | c :: s' =>
      if is_digit c then let (d, r) := take_digits s' in (c :: d, r)
      else ([], s)
  | [] => ([], [])
  end.

Definition digits_to_N (d : str) : N :=
  fold_left (fun acc c => acc * 10 + (c - 48))%N d 0%N.

(** int: a single 0, or a digit 1-9 followed by digits *)
Definition parse_int (s : str) : option (str * str) :=
  match s with
  | c :: s' =>
      if (c =? 48)%N then Some ([c], s')
      else if is_digit c then Some (take_digits s)
      else None
  | [] => None
  end.

(** frac: nothing, or a point followed by at least one digit *)
Definition parse_frac (s : str) : option (str * str) :=
  if head_is 46%N s then
    match take_digits (tl s) with
    | ([], _) => None
    | (d, r) => Some (d, r)
    end
  else Some ([], s).

(** exp: nothing, or e or E, an optional sign and at least one digit *)
Definition parse_exp (s : str) : option (Z * str) :=
  if head_is 101%N s || head_is 69%N s then
    let s' := tl s in
    let (sign, s'') :=
      if head_is 45%N s' then (true, tl s')
      else if head_is 43%N s' then (false, tl s')
      else (false, s') in
    match take_digits s'' with
    | ([], _) => None
    | (d, r) =>
        let e := Z.of_N (digits_to_N d) in
        Some (if sign then (- e)%Z else e, r)
    end
  else Some (0%Z, s).

Definition parse_number (s : str) : option (number * str) :=
  let (sign, s1) := if head_is 45%N s then (true, tl s) else (false, s) in
  match parse_int s1 with
  | None => None
  | Some (int, s2) =>
      match parse_frac s2 with
      | None => None
      | Some (frac, s3) =>
          match parse_exp s3 with
          | None => None
          | Some (e, s4) =>
              Some (Num sign (digits_to_N (int ++ frac))
                      (e - Z.of_nat (List.length frac)), s4)
          end
      end
  end.

(** The object built from the members in the order they were read: a
    repeated key keeps its first place and takes the last value. *)
Definition object_of_members (l : list (str * value)) : object :=
  fold_left (fun m kv => set (fst kv) (snd kv) m) l [].

Fixpoint parse_value (fuel : nat) (s : str) : option (value * str) :=
  match fuel with
  | O => None
  | S f =>
      match s with
      | [] => None
      | c :: s' =>
          if (c =? 123)%N then                       (* { *)
            if head_is 125%N (skip_ws s')
            then Some (JObject [], tl (skip_ws s'))
            else
              match parse_members f (skip_ws s') with
              | Some (l, r') => Some (JObject (object_of_members l), r')
              | None => None
              end
          else if (c =? 91)%N then                   (* [ *)
            if head_is 93%N (skip_ws s')
            then Some (JArray [], tl (skip_ws s'))
            else
              match parse_elements f (skip_ws s') with
              | Some (l, r') => Some (JArray l, r')
              | None => None
              end
          else if (c =? 34)%N then                   (* a string *)
            match parse_chars s' with
            | Some (t, r) => Some (JString t, r)
            | None => None
            end
          else if (c =? 116)%N then
            option_map (pair (JBool true)) (strip_prefix (lit "true") s)
          else if (c =? 102)%N then
            option_map (pair (JBool false)) (strip_prefix (lit "false") s)
          else if (c =? 110)%N then
            option_map (pair JNull) (strip_prefix (lit "null") s)
          else
            match parse_number s with
            | Some (n, r) => Some (JNum n, r)
            | None => None
            end
      end
  end

(** value (, value)* ] with white space around each value *)
with parse_elements (fuel : nat) (s : str) : option (list value * str) :=
  match fuel with
  | O => None
  | S f =>
      match parse_value f (skip_ws s) with
      | None => None
      | Some (v, r) =>
          if head_is 44%N (skip_ws r) then
            match parse_elements f (tl (skip_ws r)) with
            | Some (l, r'') => Some (v :: l, r'')
            | None => None
            end
          else if head_is 93%N (skip_ws r) then Some ([v], tl (skip_ws r))
          else None
      end
  end

(** string : value (, string : value)* } with white space around each token *)
with parse_members (fuel : nat) (s : str) : option (list (str * value) * str) :=
  match fuel with
  | O => None
  | S f =>
      if negb (head_is 34%N (skip_ws s)) then None
      else
        match parse_chars (tl (skip_ws s)) with
        | None => None
        | Some (k, s2) =>
            if negb (head_is 58%N (skip_ws s2)) then None
            else
              match parse_value f (skip_ws (tl (skip_ws s2))) with
              | None => None
              | Some (v, r) =>
                  if head_is 44%N (skip_ws r) then
                    match parse_members f (tl (skip_ws r)) with
                    | Some (l, r'') => Some ((k, v) :: l, r'')
                    | None => None
                    end
                  else if head_is 125%N (skip_ws r)
                  then Some ([(k, v)], tl (skip_ws r))
                  else None
              end
        end
  end.

(** [JSON.parse(text)]: [None] when it throws its SyntaxError. *)
Definition JSON_parse (text : str) : option value :=
  match parse_value (S (List.length text)) (skip_ws text) with
  | Some (v, r) => match skip_ws r with [] => Some v | _ :: _ => None end
  | None => None
  end.

(** ** Exceptions, fetch and asynchronous functions *)

(** The exceptions raised by the runtime; the text of their [message] is
    chosen by the engine. *)
Inductive js_exn :=
| SyntaxError_JSON                       (* JSON.parse, response.json() *)
| TypeError_nullish (prop : str)         (* a property of null or undefined *)
| TypeError_not_a_function (prop : str)  (* a call of what is no function *)
| TypeError_fetch.                       (* fetch could not reach the host *)

Inductive thrown :=
| Error (message : value)                (* new Error(message) *)
| ErrorCat (prefix : str) (e : thrown)   (* new Error(prefix + e.message) *)
| Exn (e : js_exn).

Inductive endpoint := GenerateContent | DeepSeekChat | OpenRouterChat.

(** A call of [fetch]: which of the three call sites makes it, and the
    values of [apiKey], [model] and [prompt] there. The URL, the headers and
    the body of the call are what the template strings and [JSON.stringify]
    of that call site make of these values; the URL and the headers are not
    modelled, the body is [wire_body]. *)
Record request := Request
  { to : endpoint; with_key : jsval; with_model : jsval; with_prompt : jsval }.

(** What [await fetch(...)] gives: a rejection, or a response with its status
    and the text of its body. *)
Inductive fetch_outcome :=
| NetworkFailure
| Response (status : N) (body : str).

(** [response.ok] *)
Definition ok (status : N) : bool := ((200 <=? status) && (status <=? 299))%N.

(** An asynchronous computation: it returns, throws, or awaits a [fetch]. *)
Inductive prog (A : Type) :=
| Ret (a : A)
| Throw (e : thrown)
| Fetch (rq : request) (k : fetch_outcome -> prog A).

Arguments Ret {A} a.
Arguments Throw {A} e.
Arguments Fetch {A} rq k.

Fixpoint bind {A B : Type} (p : prog A) (f : A -> prog B) : prog B :=
  match p with
  | Ret a => f a
  | Throw e => Throw e
  | Fetch rq k => Fetch rq (fun o => bind (k o) f)
  end.

Notation "x <- p ;; k" := (bind p (fun x => k))
  (at level 61, p at next level, right associativity).

(** [try { p } catch (e) { h e }] *)
Fixpoint try_catch {A : Type} (p : prog A) (h : thrown -> prog A) : prog A :=
  match p with
  | Ret a => Ret a
  | Throw e => h e
  | Fetch rq k => Fetch rq (fun o => try_catch (k o) h)
  end.

(** Running a computation against the network [net]: its outcome and the
    outbound requests it issued, first to last. *)
Fixpoint run {A : Type} (net : request -> fetch_outcome) (p : prog A)
  : (A + thrown) * list request :=
  match p with
  | Ret a => (inl a, [])
  | Throw e => (inr e, [])
  | Fetch rq k => let (r, log) := run net (k (net rq)) in (r, rq :: log)
  end.

(** [v.k] for any [v]: reading a property of [null] throws. *)
Definition member (v : value) (k : str) : prog jsval :=
  match v with
  | JNull => Throw (Exn (TypeError_nullish k))
  | _ => Ret (Get v k)
  end.

(** [await response.json()] *)
Definition response_json (body : str) : prog value :=
  match JSON_parse body with
  | Some v => Ret v
  | None => Throw (Exn SyntaxError_JSON)
  end.

Fixpoint uint_digits (d : Decimal.uint) : str :=
  match d with
  | Decimal.Nil => []
  | Decimal.D0 d => 48%N :: uint_digits d
  | Decimal.D1 d => 49%N :: uint_digits d
  | Decimal.D2 d => 50%N :: uint_digits d
  | Decimal.D3 d => 51%N :: uint_digits d
  | Decimal.D4 d => 52%N :: uint_digits d
  | Decimal.D5 d => 53%N :: uint_digits d
  | Decimal.D6 d => 54%N :: uint_digits d
  | Decimal.D7 d => 55%N :: uint_digits d
  | Decimal.D8 d => 56%N :: uint_digits d
  | Decimal.D9 d => 57%N :: uint_digits d
  end.

(** The decimal numeral of a status code *)
Definition decimal (n : N) : str := uint_digits (N.to_uint n).

(** ** The request and the reply of the endpoint *)

Record http_request := HttpRequest { method : str; body : jsval }.

(** A string built by [+] from a string and a value: the text of a value
    that is not a string is left to ToString. *)
Inductive text :=
| Text (s : str)
| TextOf (prefix : str) (v : jsval).

Definition concat (prefix : str) (v : jsval) : text :=
  match v with
  | Some (JString s) => Text (prefix ++ s)
  | _ => TextOf prefix v
  end.

Inductive reply :=
| End (status : N)                          (* res.status(n).end() *)
| Message (status : N) (message : text)     (* res.status(n).json({ message }) *)
| Result (status : N) (result : value)      (* res.status(n).json(result) *)
| Failure (status : N) (e : thrown).
    (* res.status(n).json({ message: e.message || 'Internal server error' }) *)

(** [const { provider, model, apiKey, prompt } = req.body] *)
Definition destructure (body : jsval)
  : prog (jsval * jsval * jsval * jsval) :=
  match body with
  | None | Some JNull => Throw (Exn (TypeError_nullish (lit "provider")))
  | Some b =>
      Ret (Get b (lit "provider"), Get b (lit "model"),
           Get b (lit "apiKey"), Get b (lit "prompt"))
  end.

(** [provider === name] *)
Definition is_string (v : jsval) (name : str) : bool :=
  match v with
  | Some (JString s) => str_eqb s name
  | _ => false
  end.

(** The part of [parseAIResponse] that both files share: from the text to
    the JSON candidate. *)
Definition cleanText (text : str) : str :=
  replace_empty true re_fence_close
    (replace_empty true re_fence_open
       (replace_empty true re_fence_json (trim text))).

Definition jsonMatch (text : str) : option str :=
  match_ false re_braces (cleanText text).

(** [text] evaluated to [v], which is truthy: [parse(text)] calls
    [text.trim()]. *)
Definition on_text (parse : str -> prog value) (v : value) : prog value :=
  match v with
  | JString s => parse s
  | _ => Throw (Exn (TypeError_not_a_function (lit "trim")))
  end.

(** [Array.isArray(v)] *)
Definition Array_isArray (v : jsval) : bool :=
  match v with
  | Some (JArray _) => true
  | _ => false
  end.

(** The elements of [v] when [v] is an array. *)
Definition elements (v : jsval) : list value :=
  match v with
  | Some (JArray l) => l
  | _ => []
  end.

(** [l.map(f)] for an [f] that may throw: the elements are visited in order
    and the first exception ends the loop. *)
Fixpoint Array_map (f : value -> prog value) (l : list value)
  : prog (list value) :=
  match l with
  | [] => Ret []
  | x :: l' => y <- f x ;; ys <- Array_map f l' ;; Ret (y :: ys)
  end.

(** [l.slice(0, n)] *)
Definition slice0 (n : nat) (l : list value) : list value := firstn n l.

Definition empty : value := JString [].

(** * src/api/analyze.js *)

Module Analyze.

(** [k => ({ word: k.word || '', phonetic: k.phonetic || '', ... })] *)
Definition keyword_entry (k : value) : prog value :=
  word <- member k (lit "word") ;;
  phonetic <- member k (lit "phonetic") ;;
  roots <- member k (lit "roots") ;;
  origin <- member k (lit "origin") ;;
  meaning <- member k (lit "meaning") ;;
  Ret (JObject
         [(lit "word", or_else word empty);
          (lit "phonetic", or_else phonetic empty);
          (lit "roots", or_else roots empty);
          (lit "origin", or_else origin empty);
          (lit "meaning", or_else meaning empty)]).

(** The statements of the try block that follow [JSON.parse], on the
    properties of [parsed]. [parsed] is an object: the candidate starts with
    a brace, and such a text parses to nothing else
    ([JSON_parse_brace_object]); the last branch of the match in
    [parse_candidate] is never taken. *)
Definition coerce (parsed : object) : prog value :=
  let parsed :=
    if negb (truthy_opt (own (lit "translation") parsed))
    then set (lit "translation") empty parsed else parsed in
  let parsed :=
    if negb (Array_isArray (own (lit "keywords") parsed))
    then set (lit "keywords") (JArray []) parsed else parsed in
  mapped <- Array_map keyword_entry (elements (own (lit "keywords") parsed)) ;;
  Ret (JObject (set (lit "keywords") (JArray (slice0 5 mapped)) parsed)).

(** The try block and its catch clause, on [jsonMatch[0]]. *)
Definition parse_candidate (candidate : str) : prog value :=
  try_catch
    match JSON_parse candidate with
    | None => Throw (Exn SyntaxError_JSON)
    | Some (JObject parsed) => coerce parsed
    | Some _ => Throw (Exn (TypeError_nullish (lit "translation")))
    end
    (fun e => Throw (ErrorCat (lit "Failed to parse AI response: ") e)).

Definition parseAIResponse (text : str) : prog value :=
  match jsonMatch text with
  | None => Throw (Error (JString (lit "Could not parse AI response as JSON")))
  | Some candidate => parse_candidate candidate
  end.

Definition callGemini (apiKey model prompt : jsval) : prog value :=
  Fetch (Request GenerateContent apiKey model prompt) (fun response =>
    match response with
    | NetworkFailure => Throw (Exn TypeError_fetch)
    | Response status body =>
        if negb (ok status) then
          error <- response_json body ;;
          inner <- member error (lit "error") ;;
          Throw (Error (or_else (opt_chain inner (lit "message"))
                          (JString (lit "Gemini API request failed"))))
        else
          data <- response_json body ;;
          candidates <- member data (lit "candidates") ;;
          let text :=
            opt_chain
              (opt_chain
                 (opt_chain
                    (opt_chain (opt_chain candidates (lit "0")) (lit "content"))
                    (lit "parts"))
                 (lit "0"))
              (lit "text") in
          match text with
          | Some t =>
              if truthy t then on_text parseAIResponse t
              else Throw (Error (JString (lit "No response from Gemini")))
          | None => Throw (Error (JString (lit "No response from Gemini")))
          end
    end).

Definition callDeepSeek (apiKey model prompt : jsval) : prog value :=
  Fetch (Request DeepSeekChat apiKey model prompt) (fun response =>
    match response with
    | NetworkFailure => Throw (Exn TypeError_fetch)
    | Response status body =>
        if negb (ok status) then
          error <- response_json body ;;
          inner <- member error (lit "error") ;;
          Throw (Error (or_else (opt_chain inner (lit "message"))
                          (JString (lit "DeepSeek API request failed"))))
        else
          data <- response_json body ;;
          choices <- member data (lit "choices") ;;
          let text :=
            opt_chain
              (opt_chain (opt_chain choices (lit "0")) (lit "message"))
              (lit "content") in
          match text with
          | Some t =>
              if truthy t then on_text parseAIResponse t
              else Throw (Error (JString (lit "No response from DeepSeek")))
          | None => Throw (Error (JString (lit "No response from DeepSeek")))
          end
    end).

Definition callOpenRouter (apiKey model prompt : jsval) : prog value :=
  Fetch (Request OpenRouterChat apiKey model prompt) (fun response =>
    match response with
    | NetworkFailure => Throw (Exn TypeError_fetch)
    | Response status body =>
        if negb (ok status) then
          errorData <-
            try_catch (response_json body) (fun _ => Ret (JObject [])) ;;
          inner <- member errorData (lit "error") ;;
          Throw (Error (or_else (opt_chain inner (lit "message"))
                          (JString (lit "OpenRouter error " ++ decimal status))))
        else
          data <- response_json body ;;
          choices <- member data (lit "choices") ;;
          let text :=
            opt_chain
              (opt_chain (opt_chain choices (lit "0")) (lit "message"))
              (lit "content") in
          match text with
          | Some t =>
              if truthy t then on_text parseAIResponse t
              else Throw (Error (JString (lit "No response from OpenRouter")))
          | None => Throw (Error (JString (lit "No response from OpenRouter")))
          end
    end).

(** The statements inside the try block of [handler]. *)
Definition dispatch (body : jsval) : prog reply :=
  fields <- destructure body ;;
  let '(provider, model, apiKey, prompt) := fields in
  if negb (truthy_opt apiKey)
  then Ret (Message 400 (Text (lit "API key is required")))
  else if negb (truthy_opt prompt)
  then Ret (Message 400 (Text (lit "Prompt is required")))
  else if is_string provider (lit "gemini") then
    result <- callGemini apiKey model prompt ;; Ret (Result 200 result)
  else if is_string provider (lit "deepseek") then
    result <- callDeepSeek apiKey model prompt ;; Ret (Result 200 result)
  else if is_string provider (lit "openrouter") then
    result <- callOpenRouter apiKey model prompt ;; Ret (Result 200 result)
  else Ret (Message 400 (concat (lit "Unknown provider: ") provider)).

Definition handler (req : http_request) : prog reply :=
  if str_eqb (method req) (lit "OPTIONS") then Ret (End 200)
  else if negb (str_eqb (method req) (lit "POST"))
  then Ret (Message 405 (Text (lit "Method not allowed")))
  else try_catch (dispatch (body req)) (fun error => Ret (Failure 500 error)).

End Analyze.

(** * src/unnamed/part_000

    The older copy of the endpoint: two providers, keyword entries of four
    fields, and an unknown provider reported without its name. *)

Module Part000.

(** [k => ({ word: k.word || '', roots: k.roots || '', ... })] *)
Definition keyword_entry (k : value) : prog value :=
  word <- member k (lit "word") ;;
  roots <- member k (lit "roots") ;;
  origin <- member k (lit "origin") ;;
  meaning <- member k (lit "meaning") ;;
  Ret (JObject
         [(lit "word", or_else word empty);
          (lit "roots", or_else roots empty);
          (lit "origin", or_else origin empty);
          (lit "meaning", or_else meaning empty)]).

Definition coerce (parsed : object) : prog value :=
  let parsed :=
    if negb (truthy_opt (own (lit "translation") parsed))
    then set (lit "translation") empty parsed else parsed in
  let parsed :=
    if negb (Array_isArray (own (lit "keywords") parsed))
    then set (lit "keywords") (JArray []) parsed else parsed in
  mapped <- Array_map keyword_entry (elements (own (lit "keywords") parsed)) ;;
  let parsed := set (lit "keywords") (JArray mapped) parsed in
  Ret (JObject
         (set (lit "keywords")
            (JArray (slice0 5 (elements (own (lit "keywords") parsed))))
            parsed)).

(** The try block and its catch clause, on [jsonMatch[0]]. *)
Definition parse_candidate (candidate : str) : prog value :=
  try_catch
    match JSON_parse candidate with
    | None => Throw (Exn SyntaxError_JSON)
    | Some (JObject parsed) => coerce parsed
    | Some _ => Throw (Exn (TypeError_nullish (lit "translation")))
    end
    (fun e => Throw (ErrorCat (lit "Failed to parse AI response: ") e)).

Definition parseAIResponse (text : str) : prog value :=
  match jsonMatch text with
  | None => Throw (Error (JString (lit "Could not parse AI response as JSON")))
  | Some candidate => parse_candidate candidate
  end.

Definition callGemini (apiKey model prompt : jsval) : prog value :=
  Fetch (Request GenerateContent apiKey model prompt) (fun response =>
    match response with
    | NetworkFailure => Throw (Exn TypeError_fetch)
    | Response status body =>
        if negb (ok status) then
          error <- response_json body ;;
          inner <- member error (lit "error") ;;
          Throw (Error (or_else (opt_chain inner (lit "message"))
                          (JString (lit "Gemini API request failed"))))
        else
          data <- response_json body ;;
          candidates <- member data (lit "candidates") ;;
          let text :=
            opt_chain
              (opt_chain
                 (opt_chain
                    (opt_chain (opt_chain candidates (lit "0")) (lit "content"))
                    (lit "parts"))
                 (lit "0"))
              (lit "text") in
          match text with
          | Some t =>
              if truthy t then on_text parseAIResponse t
              else Throw (Error (JString (lit "No response from Gemini")))
          | None => Throw (Error (JString (lit "No response from Gemini")))
          end
    end).

Definition callDeepSeek (apiKey model prompt : jsval) : prog value :=
  Fetch (Request DeepSeekChat apiKey model prompt) (fun response =>
    match response with
    | NetworkFailure => Throw (Exn TypeError_fetch)
    | Response status body =>
        if negb (ok status) then
          error <- response_json body ;;
          inner <- member error (lit "error") ;;
          Throw (Error (or_else (opt_chain inner (lit "message"))
                          (JString (lit "DeepSeek API request failed"))))
        else
          data <- response_json body ;;
          choices <- member data (lit "choices") ;;
          let text :=
            opt_chain
              (opt_chain (opt_chain choices (lit "0")) (lit "message"))
              (lit "content") in
          match text with
          | Some t =>
              if truthy t then on_text parseAIResponse t
              else Throw (Error (JString (lit "No response from DeepSeek")))
          | None => Throw (Error (JString (lit "No response from DeepSeek")))
          end
    end).

Definition dispatch (body : jsval) : prog reply :=
  fields <- destructure body ;;
  let '(provider, model, apiKey, prompt) := fields in
  if negb (truthy_opt apiKey)
  then Ret (Message 400 (Text (lit "API key is required")))
  else if negb (truthy_opt prompt)
  then Ret (Message 400 (Text (lit "Prompt is required")))
  else if is_string provider (lit "gemini") then
    result <- callGemini apiKey model prompt ;; Ret (Result 200 result)
  else if is_string provider (lit "deepseek") then
    result <- callDeepSeek apiKey model prompt ;; Ret (Result 200 result)
  else Ret (Message 400 (Text (lit "Unknown provider"))).

Definition handler (req : http_request) : prog reply :=
  if str_eqb (method req) (lit "OPTIONS") then Ret (End 200)
  else if negb (str_eqb (method req) (lit "POST"))
  then Ret (Message 405 (Text (lit "Method not allowed")))
  else try_catch (dispatch (body req)) (fun error => Ret (Failure 500 error)).

End Part000.

(** * The words of the specification *)

(** ** Steps 1 to 3 of the normalizer, as the specification words them *)

Fixpoint starts_with (i : bool) (p s : str) : bool :=
  match p, s with
  | [], _ => true
  | a :: p', b :: s' => chr_matches i a b && starts_with i p' s'
  | _ :: _, [] => false
  end.

(** One leading marker, [```json] in any case or a bare [```], is removed. *)
Definition strip_leading_fence (s : str) : str :=
  if starts_with true (lit "```json") s then skipn 7 s
  else if starts_with false (lit "```") s then skipn 3 s
  else s.

(** One trailing [```] is removed. *)
Definition strip_trailing_fence (s : str) : str :=
  if starts_with false (lit "```") (rev s)
  then firstn (List.length s - 3) s else s.

Fixpoint index_of (c : code_unit) (s : str) : option nat :=
  match s with
  | [] => None
  | x :: s' => if (x =? c)%N then Some 0 else option_map S (index_of c s')
  end.

Fixpoint last_index_of (c : code_unit) (s : str) : option nat :=
  match s with
  | [] => None
  | x :: s' =>
      match last_index_of c s' with
      | Some j => Some (S j)
      | None => if (x =? c)%N then Some 0 else None
      end
  end.

(** From the first opening brace through the last closing brace. *)
Definition brace_span (s : str) : option str :=
  match index_of LBRACE s, last_index_of RBRACE s with
  | Some i, Some j =>
      if Nat.ltb i j then Some (firstn (j - i + 1) (skipn i s)) else None
  | _, _ => None
  end.

Definition spec_candidate (text : str) : option str :=
  brace_span (strip_trailing_fence (strip_leading_fence (trim text))).

(** ** The same steps as the code takes them

    A marker goes together with the white space next to it, and the two
    leading markers are tried one after the other, so that both can go. *)

(** A leading [```json], in any case, and the white space after it. *)
Definition strip_json_fence (s : str) : str :=
  if starts_with true (lit "```json") s then trimStart (skipn 7 s) else s.

(** A leading [```] and the white space after it. *)
Definition strip_bare_fence (s : str) : str :=
  if starts_with false (lit "```") s then trimStart (skipn 3 s) else s.

(** A trailing [```] and the white space before it. *)
Definition strip_closing_fence (s : str) : str :=
  if starts_with false (lit "```") (rev s)
  then trimEnd (firstn (List.length s - 3) s) else s.

(** The trim, then the three removals in the order of the code: what is
    left is the text searched for the braces. *)
Definition cleaned (text : str) : str :=
  strip_closing_fence (strip_bare_fence (strip_json_fence (trim text))).

(** ** Step 5 of the normalizer: the keyword entry of an element

    Each of the five fields is the field of the element when that is truthy
    and the empty string otherwise. *)

Definition entry_of (k : value) : value :=
  JObject
    [(lit "word", or_else (Get k (lit "word")) empty);
     (lit "phonetic", or_else (Get k (lit "phonetic")) empty);
     (lit "roots", or_else (Get k (lit "roots")) empty);
     (lit "origin", or_else (Get k (lit "origin")) empty);
     (lit "meaning", or_else (Get k (lit "meaning")) empty)].

(** The same with the four fields of the older copy. *)
Definition entry_of_four (k : value) : value :=
  JObject
    [(lit "word", or_else (Get k (lit "word")) empty);
     (lit "roots", or_else (Get k (lit "roots")) empty);
     (lit "origin", or_else (Get k (lit "origin")) empty);
     (lit "meaning", or_else (Get k (lit "meaning")) empty)].

Definition is_null (v : value) : bool :=
  match v with
  | JNull => true
  | _ => false
  end.

(** ** The canonical result and its serialization *)

Record KeywordEntry := Keyword
  { word : str; phonetic : str; roots : str; origin : str; meaning : str }.

Record AnalysisResult := Analysis
  { translation : str; keywords : list KeywordEntry }.

Definition entry_value (k : KeywordEntry) : value :=
  JObject
    [(lit "word", JString (word k));
     (lit "phonetic", JString (phonetic k));
     (lit "roots", JString (roots k));
     (lit "origin", JString (origin k));
     (lit "meaning", JString (meaning k))].

Definition result_value (r : AnalysisResult) : value :=
  JObject
    [(lit "translation", JString (translation r));
     (lit "keywords", JArray (List.map entry_value (keywords r)))].

(** [JSON.stringify] on strings: QuoteJSONString. *)
Definition hex_digit (n : N) : code_unit :=
  if (n <? 10)%N then (48 + n)%N else (87 + n)%N.

Definition unicode_escape (c : code_unit) : str :=
  [92; 117; hex_digit ((c / 4096) mod 16); hex_digit ((c / 256) mod 16);
   hex_digit ((c / 16) mod 16); hex_digit (c mod 16)]%N.

Definition is_high_surrogate (c : code_unit) : bool :=
  ((55296 <=? c) && (c <=? 56319))%N.

Definition is_low_surrogate (c : code_unit) : bool :=
  ((56320 <=? c) && (c <=? 57343))%N.

(** The escape of one character that is no surrogate. *)
Definition quote_char (c : code_unit) : str :=
  (if c =? 8 then [92; 98]
   else if c =? 9 then [92; 116]
   else if c =? 10 then [92; 110]
   else if c =? 12 then [92; 102]
   else if c =? 13 then [92; 114]
   else if c =? 34 then [92; 34]
   else if c =? 92 then [92; 92]
   else if c <? 32 then unicode_escape c
   else [c])%N.

(** A surrogate pair is copied; a surrogate on its own is escaped. *)
Fixpoint quote_chars (s : str) : str :=
  match s with
  | [] => []
  | c :: s' =>
      if is_high_surrogate c then
        match s' with
        | d :: s'' =>
            if is_low_surrogate d then c :: d :: quote_chars s''
            else unicode_escape c ++ quote_chars s'
        | [] => unicode_escape c
        end
      else if is_low_surrogate c then unicode_escape c ++ quote_chars s'
      else quote_char c ++ quote_chars s'
  end.

Definition QuoteJSONString (s : str) : str := 34%N :: quote_chars s ++ [34%N].

(** [a,b,c] *)
Fixpoint join_comma (l : list str) : str :=
  match l with
  | [] => []
  | [x] => x
  | x :: l' => x ++ 44%N :: join_comma l'
  end.

Definition stringify_property (k v : str) : str :=
  QuoteJSONString k ++ 58%N :: v.

Definition stringify_entry (k : KeywordEntry) : str :=
  123%N ::
    join_comma
      [stringify_property (lit "word") (QuoteJSONString (word k));
       stringify_property (lit "phonetic") (QuoteJSONString (phonetic k));
       stringify_property (lit "roots") (QuoteJSONString (roots k));
       stringify_property (lit "origin") (QuoteJSONString (origin k));
       stringify_property (lit "meaning") (QuoteJSONString (meaning k))]
    ++ [125%N].

(** [JSON.stringify(r)] for the canonical result [r] *)
Definition stringify_result (r : AnalysisResult) : str :=
  123%N ::
    join_comma
      [stringify_property (lit "translation") (QuoteJSONString (translation r));
       stringify_property (lit "keywords")
         (91%N :: join_comma (List.map stringify_entry (keywords r)) ++ [93%N])]
    ++ [125%N].

(** * Predicates of the statements and of their proofs *)

(** Every character an atom can consume satisfies [P]. *)
Definition atom_within (i : bool) (P : code_unit -> Prop) (a : atom) : Prop :=
  match a with
  | Chr c => forall ch, chr_matches i c ch = true -> P ch
  | Star p => forall ch, p ch = true -> P ch
  | Bol | Eol => True
  end.

Definition not_brace (c : code_unit) : Prop := c <> LBRACE /\ c <> RBRACE.

(** [t] is read as [v] whatever follows, with fuel [n] or more. *)
Definition reads (n : nat) (t : str) (v : value) : Prop :=
  forall f rest, n <= f -> parse_value f (t ++ rest) = Some (v, rest).

Definition reads_members (n : nat) (t : str) (l : list (str * value)) : Prop :=
  forall f rest, n <= f -> parse_members f (t ++ rest) = Some (l, rest).

Definition reads_elements (n : nat) (t : str) (l : list value) : Prop :=
  forall f rest, n <= f -> parse_elements f (t ++ rest) = Some (l, rest).

(** [t] starts with a character that is not JSON white space. *)
Definition solid (t : str) : Prop :=
  exists c t', t = c :: t' /\ is_json_ws c = false.

(** A property to serialize: its key, the text of its value and the value. *)
Definition property := (str * str * value)%type.

Definition property_text (p : property) : str :=
  stringify_property (fst (fst p)) (snd (fst p)).

Definition property_member (p : property) : str * value :=
  (fst (fst p), snd p).

Definition entry_properties (k : KeywordEntry) : list property :=
  [(lit "word", QuoteJSONString (word k), JString (word k));
   (lit "phonetic", QuoteJSONString (phonetic k), JString (phonetic k));
   (lit "roots", QuoteJSONString (roots k), JString (roots k));
   (lit "origin", QuoteJSONString (origin k), JString (origin k));
   (lit "meaning", QuoteJSONString (meaning k), JString (meaning k))].

Definition keywords_text (ks : list KeywordEntry) : str :=
  91%N :: join_comma (List.map stringify_entry ks) ++ [93%N].

Definition result_properties (r : AnalysisResult) : list property :=
  [(lit "translation", QuoteJSONString (translation r),
    JString (translation r));
   (lit "keywords", keywords_text (keywords r),
    JArray (List.map entry_value (keywords r)))].

(** [parsed] after the two guards on [translation] and [keywords]. *)
Definition with_defaults (parsed : object) : object :=
  let parsed :=
    if negb (truthy_opt (own (lit "translation") parsed))
    then set (lit "translation") empty parsed else parsed in
  if negb (Array_isArray (own (lit "keywords") parsed))
  then set (lit "keywords") (JArray []) parsed else parsed.



(** The number of white space characters at the head of a string. *)
Fixpoint white_run (s : str) : nat :=
  match s with
  | c :: s' => if is_white_space c then S (white_run s') else 0
  | [] => 0
  end.

(** White space, as a predicate. *)
Definition is_white (c : code_unit) : Prop := is_white_space c = true.

(** * Inputs of the examples *)

Definition canonical_example : AnalysisResult :=
  Analysis (lit "he runs") 
    [Keyword (lit "run") (lit "/r^n/") (lit "rinnan") (lit "Old English")
       (lit "to move fast");
     Keyword (lit "he") [] [] [] []].

Definition null_keyword_text : str := q "{'keywords':[null]}".

Definition number_translation_text : str := q "{'translation':5}".

Definition number_translation_result : value :=
  JObject
    [(lit "translation", JNum (Num false 5 0));
     (lit "keywords", JArray [])].

Definition hi_text : str := q "{'translation':'hi','keywords':[]}".

Definition hi_result : value :=
  JObject [(lit "translation", JString (lit "hi")); (lit "keywords", JArray [])].

Definition phonetic_text : str :=
  q "{'keywords':[{'word':'run','phonetic':'r'}]}".

Definition phonetic_element : value :=
  JObject [(lit "word", JString (lit "run"));
           (lit "phonetic", JString (lit "r"))].

Definition note_text : str :=
  q "{'note':'n','keywords':[{'word':'run','phonetic':'r','extra':1}]}".

Definition unknown_provider_body : jsval :=
  JSON_parse (q "{'provider':'foo','apiKey':'k','prompt':'p'}").

Definition empty_key_body : value :=
  JObject [(lit "provider", JString (lit "gemini"));
           (lit "apiKey", JString []);
           (lit "prompt", JString (lit "p"))].

Definition offline (_ : request) : fetch_outcome := NetworkFailure.

(** The network that answers every request with the same response. *)
Definition always (status : N) (body : str) (_ : request) : fetch_outcome :=
  Response status body.

(** A text that opens with two markers, and a fenced block. *)
Definition two_fences_text : str := lit "```json```{}".

Definition fenced_block_text : str :=
  lit "```JSON" ++ [10%N] ++ lit "{}" ++ [10%N] ++ lit "```".

(** * The outcome of a computation and the requests on the wire *)

(** A computation that awaits no [fetch]. *)
Definition fetch_free {A : Type} (p : prog A) : Prop :=
  match p with
  | Fetch _ _ => False
  | _ => True
  end.

(** The status of a reply. *)
Definition status_of (r : reply) : N :=
  match r with
  | End s => s
  | Message s _ => s
  | Result s _ => s
  | Failure s _ => s
  end.

(** What the handler answers for the outcome of an adapter: the result with
    status 200, or the failure with status 500. *)
Definition reply_of (r : value + thrown) : reply :=
  match r with
  | inl result => Result 200 result
  | inr error => Failure 500 error
  end.








Definition prose_before : str := lit "Here is the analysis you asked for: ".
Definition prose_after : str := lit " Let me know if you need more.".

Definition eight_keywords_text : str :=
  q "{'translation':'t','keywords':[{'word':'a'},{'word':'b'},{'word':'c'},{'word':'d'},{'word':'e'},{'word':'f'},{'word':'g'},{'word':'h'}],'lang':'en'}".

Definition gemini_request_body : value :=
  JObject [(lit "provider", JString (lit "gemini"));
           (lit "model", JString (lit "gemini-pro"));
           (lit "apiKey", JString (lit "k"));
           (lit "prompt", JString (lit "p"))].

Definition mistral_request_body : value :=
  JObject [(lit "provider", JString (lit "mistral"));
           (lit "apiKey", JString (lit "k"));
           (lit "prompt", JString (lit "p"))].

Definition eight_keywords_result : value :=
  Eval vm_compute in
    match Analyze.parseAIResponse eight_keywords_text with
    | Ret v => v
    | _ => JNull
    end.

Definition eight_keywords_result_four : value :=
  Eval vm_compute in
    match Part000.parseAIResponse eight_keywords_text with
    | Ret v => v
    | _ => JNull
    end.

Definition first_entry : value :=
  JObject [(lit "word", JString (lit "a")); (lit "phonetic", empty);
           (lit "roots", empty); (lit "origin", empty);
           (lit "meaning", empty)].

Definition missing_fields_object : object :=
  [(lit "keywords", JArray [JObject [(lit "word", JString (lit "run"))]])].

Definition missing_fields_coerced : object :=
  [(lit "keywords", JArray [entry_of (JObject [(lit "word", JString (lit "run"))])]);
   (lit "translation", empty)].

(** * Facts about the runtime *)

Unset Implicit Arguments.

(** ** The matcher *)

Lemma match_here_star (i : bool) (p : code_unit -> bool) (r : regex)
  (b : bool) (s : str) :
  match_here i (Star p :: r) b s =
  match s with
  | ch :: s' =>
      if p ch then
        match match_here i (Star p :: r) false s' with
        | Some n => Some (S n)
        | None => match_here i r b s
        end
      else match_here i r b s
  | [] => match_here i r b s
  end.
Proof. destruct s; reflexivity. Qed.

Lemma match_here_within (i : bool) (P : code_unit -> Prop) (r : regex) :
  Forall (atom_within i P) r ->
  forall b s n, match_here i r b s = Some n ->
    n <= List.length s /\ Forall P (firstn n s).
Proof.
  induction r as [|a r IH]; intros Hok b s n H.
  - injection H as <-. split; [simpl; lia | constructor].
  - inversion Hok as [|? ? Ha Hr]; subst. specialize (IH Hr).
    destruct a as [| |c|p].
    + simpl in H. destruct b; [eauto | discriminate].
    + simpl in H. destruct s; [eauto | discriminate].
    + simpl in H. destruct s as [|ch s]; [discriminate|].
      destruct (chr_matches i c ch) eqn:Hc; [|discriminate].
      destruct (match_here i r false s) as [m|] eqn:Hm; [|discriminate].
      injection H as <-. destruct (IH _ _ _ Hm) as [Hl Hf].
      split; [simpl; lia | simpl; constructor; auto].
    + revert b n H. induction s as [|ch s IHs]; intros b n H;
        rewrite match_here_star in H; [eauto|].
      destruct (p ch) eqn:Hp; [|eauto].
      destruct (match_here i (Star p :: r) false s) as [m|] eqn:Hm; [|eauto].
      injection H as <-. destruct (IHs _ _ Hm) as [Hl Hf].
      split; [simpl; lia | simpl; constructor; auto].
Qed.

Lemma match_here_eol (i : bool) (r : regex) :
  forall b s n, match_here i (r ++ [Eol]) b s = Some n -> n = List.length s.
Proof.
  induction r as [|a r IH]; intros b s n H.
  - simpl in H. destruct s; [|discriminate]. now injection H as <-.
  - destruct a as [| |c|p]; simpl app in H.
    + simpl in H. destruct b; [eauto | discriminate].
    + simpl in H. destruct s; [eauto | discriminate].
    + simpl in H. destruct s as [|ch s]; [discriminate|].
      destruct (chr_matches i c ch); [|discriminate].
      destruct (match_here i (r ++ [Eol]) false s) as [m|] eqn:Hm;
        [|discriminate].
      injection H as <-. simpl. f_equal. eauto.
    + revert b n H. induction s as [|ch s IHs]; intros b n H;
        rewrite match_here_star in H; [eauto|].
      destruct (p ch); [|eauto].
      destruct (match_here i (Star p :: r ++ [Eol]) false s) as [m|] eqn:Hm;
        [|eauto].
      injection H as <-. simpl. f_equal. eauto.
Qed.

Lemma exec_from_bol (i : bool) (r : regex) (s : str) :
  exec_from i (Bol :: r) false s = None.
Proof. induction s as [|c s IH]; simpl; [reflexivity | now rewrite IH]. Qed.

Lemma exec_bol (i : bool) (r : regex) (s : str) :
  exec i (Bol :: r) s = option_map (pair 0) (match_here i r true s).
Proof.
  unfold exec. destruct s as [|c s]; simpl.
  - now destruct (match_here i r true []).
  - destruct (match_here i r true (c :: s)); [reflexivity|].
    now rewrite exec_from_bol.
Qed.

Lemma exec_from_match (i : bool) (r : regex) :
  forall s b start n, exec_from i r b s = Some (start, n) ->
    start <= List.length s /\
    exists b', match_here i r b' (skipn start s) = Some n.
Proof.
  induction s as [|c s IH]; intros b start n H; simpl in H.
  - destruct (match_here i r b []) eqn:Hm; [|discriminate].
    injection H as <- <-. split; [simpl; lia | eauto].
  - destruct (match_here i r b (c :: s)) eqn:Hm.
    + injection H as <- <-. split; [simpl; lia | eauto].
    + destruct (exec_from i r false s) as [[st m]|] eqn:He; [|discriminate].
      injection H as <- <-. destruct (IH _ _ _ He) as [Hl Hb].
      split; [simpl; lia | exact Hb].
Qed.

(** The text left by [replace] with an anchored pattern: a prefix made of
    characters the pattern can consume is gone. *)
Lemma replace_bol_prefix (i : bool) (P : code_unit -> Prop) (r : regex)
  (s : str) :
  Forall (atom_within i P) r ->
  exists pre, s = pre ++ replace_empty i (Bol :: r) s /\ Forall P pre.
Proof.
  intros Hok. unfold replace_empty. rewrite exec_bol.
  destruct (match_here i r true s) as [n|] eqn:Hm; simpl.
  - destruct (match_here_within _ _ _ Hok _ _ _ Hm) as [_ Hf].
    exists (firstn n s). now rewrite firstn_skipn.
  - exists []. split; [reflexivity | constructor].
Qed.

Lemma replace_eol_suffix (i : bool) (P : code_unit -> Prop) (r : regex)
  (s : str) :
  Forall (atom_within i P) r ->
  exists suf, s = replace_empty i (r ++ [Eol]) s ++ suf /\ Forall P suf.
Proof.
  intros Hok. unfold replace_empty, exec.
  destruct (exec_from i (r ++ [Eol]) true s) as [[start n]|] eqn:He.
  - destruct (exec_from_match _ _ _ _ _ _ He) as [Hl [b' Hm]].
    pose proof (match_here_eol _ _ _ _ _ Hm) as Hn.
    assert (Hr : Forall (atom_within i P) (r ++ [Eol])).
    { apply Forall_app. split; [assumption | repeat constructor]. }
    destruct (match_here_within _ _ _ Hr _ _ _ Hm) as [_ Hf].
    exists (skipn start s). rewrite length_skipn in Hn.
    replace (start + n) with (List.length s) by lia.
    rewrite skipn_all, app_nil_r, firstn_skipn. split; [reflexivity|].
    rewrite Hn in Hf. rewrite <- length_skipn in Hf.
    now rewrite firstn_all in Hf.
  - exists []. split; [now rewrite app_nil_r | constructor].
Qed.

(** ** The span between the braces *)

Lemma brace_span_cons (c : code_unit) (s : str) :
  c <> LBRACE -> brace_span (c :: s) = brace_span s.
Proof.
  intros Hc. unfold brace_span. simpl.
  apply N.eqb_neq in Hc. rewrite Hc.
  destruct (index_of LBRACE s) as [i|]; simpl; [|reflexivity].
  destruct (last_index_of RBRACE s) as [j|]; simpl; [reflexivity|].
  now destruct (c =? RBRACE)%N.
Qed.

Lemma brace_span_app_l (pre s : str) :
  Forall not_brace pre -> brace_span (pre ++ s) = brace_span s.
Proof.
  induction 1 as [|c pre [Hc _] _ IH]; [reflexivity|].
  simpl. now rewrite brace_span_cons.
Qed.

Lemma index_of_app (c : code_unit) (s suf : str) :
  Forall (fun x => x <> c) suf -> index_of c (s ++ suf) = index_of c s.
Proof.
  intros Hs. induction s as [|x s IH]; simpl.
  - induction Hs as [|y suf Hy _ IH]; simpl; [reflexivity|].
    apply N.eqb_neq in Hy. now rewrite Hy, IH.
  - now rewrite IH.
Qed.

Lemma last_index_of_app (c : code_unit) (s suf : str) :
  Forall (fun x => x <> c) suf ->
  last_index_of c (s ++ suf) = last_index_of c s.
Proof.
  intros Hs. induction s as [|x s IH]; simpl.
  - induction Hs as [|y suf Hy _ IH]; simpl; [reflexivity|].
    apply N.eqb_neq in Hy. now rewrite Hy, IH.
  - now rewrite IH.
Qed.

Lemma last_index_of_lt (c : code_unit) (s : str) (j : nat) :
  last_index_of c s = Some j -> j < List.length s.
Proof.
  revert j. induction s as [|x s IH]; intros j H; simpl in H; [discriminate|].
  destruct (last_index_of c s) as [k|].
  - injection H as <-. specialize (IH _ eq_refl). simpl. lia.
  - destruct (x =? c)%N; [|discriminate]. injection H as <-. simpl. lia.
Qed.

Lemma brace_span_app_r (s suf : str) :
  Forall not_brace suf -> brace_span (s ++ suf) = brace_span s.
Proof.
  intros Hs. unfold brace_span.
  rewrite index_of_app, last_index_of_app;
    [| eapply Forall_impl; [|exact Hs]; now intros ? [_ ?]
     | eapply Forall_impl; [|exact Hs]; now intros ? [? _] ].
  destruct (index_of LBRACE s) as [i|]; [|reflexivity].
  destruct (last_index_of RBRACE s) as [j|] eqn:Hj; [|reflexivity].
  destruct (Nat.ltb i j) eqn:Hij; [|reflexivity].
  apply Nat.ltb_lt in Hij. apply last_index_of_lt in Hj.
  rewrite skipn_app, firstn_app, length_skipn.
  replace (j - i + 1 - (List.length s - i)) with 0 by lia.
  now rewrite firstn_O, app_nil_r.
Qed.

Lemma match_here_chr (i : bool) (c : code_unit) (r : regex) (b : bool)
  (s : str) :
  match_here i (Chr c :: r) b s =
  match s with
  | ch :: s' =>
      if chr_matches i c ch then option_map S (match_here i r false s')
      else None
  | [] => None
  end.
Proof. reflexivity. Qed.

Lemma match_here_to_last_brace (b : bool) (s : str) :
  match_here false [Star any_char; Chr RBRACE] b s =
  option_map S (last_index_of RBRACE s).
Proof.
  revert b. induction s as [|ch s IH]; intros b; rewrite match_here_star.
  - reflexivity.
  - unfold any_char at 1. rewrite IH, match_here_chr.
    cbn [last_index_of match_here chr_matches].
    destruct (last_index_of RBRACE s); [reflexivity|].
    rewrite N.eqb_sym. now destruct (ch =? RBRACE)%N.
Qed.

Lemma match_here_braces (b : bool) (c : code_unit) (s : str) :
  match_here false re_braces b (c :: s) =
  if (c =? LBRACE)%N
  then option_map (fun j => S (S j)) (last_index_of RBRACE s) else None.
Proof.
  unfold re_braces. rewrite match_here_chr, match_here_to_last_brace.
  cbn [chr_matches]. rewrite N.eqb_sym.
  destruct (c =? LBRACE)%N; [|reflexivity].
  now destruct (last_index_of RBRACE s).
Qed.

Lemma exec_braces_none (s : str) :
  forall b, last_index_of RBRACE s = None ->
    exec_from false re_braces b s = None.
Proof.
  induction s as [|c s IH]; intros b H.
  - reflexivity.
  - simpl in H. destruct (last_index_of RBRACE s) eqn:Hl; [discriminate|].
    cbv beta iota delta [exec_from]; fold exec_from.
    rewrite match_here_braces, Hl, IH by reflexivity.
    now destruct (c =? LBRACE)%N.
Qed.

Lemma exec_braces_span (s : str) :
  forall b,
    match exec_from false re_braces b s with
    | Some (start, n) => Some (firstn n (skipn start s))
    | None => None
    end = brace_span s.
Proof.
  induction s as [|c s IH]; intros b.
  - reflexivity.
  - cbv beta iota delta [exec_from]; fold exec_from.
    rewrite match_here_braces.
    destruct (c =? LBRACE)%N eqn:Hc.
    + apply N.eqb_eq in Hc. subst c.
      unfold brace_span. simpl index_of. simpl last_index_of.
      destruct (last_index_of RBRACE s) as [j|] eqn:Hl; simpl.
      * replace (j + 1) with (S j) by lia. reflexivity.
      * now rewrite exec_braces_none.
    + apply N.eqb_neq in Hc. rewrite brace_span_cons by assumption.
      rewrite <- (IH false).
      now destruct (exec_from false re_braces false s) as [[st n]|].
Qed.

(** [s.match(/\{[\s\S]*\}/)] is the text from the first opening brace
    through the last closing brace. *)
Lemma match_braces (s : str) : match_ false re_braces s = brace_span s.
Proof.
  unfold match_, exec. rewrite <- (exec_braces_span s true).
  now destruct (exec_from false re_braces true s) as [[st n]|].
Qed.

(** ** What the first steps remove holds no brace *)

Lemma white_space_not_brace (c : code_unit) :
  is_white_space c = true -> not_brace c.
Proof.
  intros H. split; intros ->; discriminate H.
Qed.

Lemma canonicalize_cases (x : code_unit) :
  (canonicalize x = x \/ (97 <= x <= 122 /\ canonicalize x = x - 32))%N.
Proof.
  unfold canonicalize.
  destruct ((97 <=? x) && (x <=? 122))%N eqn:E; [right | now left].
  apply andb_true_iff in E. destruct E as [E1 E2].
  apply N.leb_le in E1, E2. lia.
Qed.

Lemma literal_not_brace (i : bool) (c ch : code_unit) :
  not_brace c -> chr_matches i c ch = true -> not_brace ch.
Proof.
  intros [H1 H2] H. unfold not_brace, LBRACE, RBRACE in *.
  destruct i; cbn [chr_matches] in H; apply N.eqb_eq in H.
  - destruct (canonicalize_cases c) as [Ec|[Rc Ec]],
      (canonicalize_cases ch) as [Eh|[Rh Eh]];
      rewrite Ec, Eh in H; split; lia.
  - subst ch. now split.
Qed.

Lemma trimStart_prefix (s : str) :
  exists pre, s = pre ++ trimStart s /\ Forall not_brace pre.
Proof.
  induction s as [|c s [pre [Hs Hp]]]; simpl.
  - exists []. split; [reflexivity | constructor].
  - destruct (is_white_space c) eqn:Hc.
    + exists (c :: pre). split; [simpl; now f_equal|].
      constructor; [now apply white_space_not_brace | assumption].
    + exists []. split; [reflexivity | constructor].
Qed.

Lemma trimEnd_suffix (s : str) :
  exists suf, s = trimEnd s ++ suf /\ Forall not_brace suf.
Proof.
  unfold trimEnd. destruct (trimStart_prefix (rev s)) as [pre [Hs Hp]].
  exists (rev pre). split.
  - rewrite <- rev_app_distr, <- Hs. now rewrite rev_involutive.
  - now apply Forall_rev.
Qed.

Lemma brace_span_trim (s : str) : brace_span (trim s) = brace_span s.
Proof.
  unfold trim.
  destruct (trimStart_prefix s) as [pre [Hs Hp]].
  destruct (trimEnd_suffix (trimStart s)) as [suf [Ht Hf]].
  rewrite Hs at 2. rewrite brace_span_app_l by assumption.
  rewrite Ht at 2. now rewrite brace_span_app_r.
Qed.

Lemma fence_atoms_within :
  Forall (atom_within true not_brace)
    [Chr BACKTICK; Chr BACKTICK; Chr BACKTICK;
     Chr 106%N; Chr 115%N; Chr 111%N; Chr 110%N; Star is_white_space] /\
  Forall (atom_within true not_brace)
    [Chr BACKTICK; Chr BACKTICK; Chr BACKTICK; Star is_white_space] /\
  Forall (atom_within true not_brace)
    [Star is_white_space; Chr BACKTICK; Chr BACKTICK; Chr BACKTICK].
Proof.
  assert (L : forall c, not_brace c -> atom_within true not_brace (Chr c)).
  { intros c H1 ch. now apply literal_not_brace. }
  assert (W : atom_within true not_brace (Star is_white_space)).
  { intros ch. apply white_space_not_brace. }
  assert (B : atom_within true not_brace (Chr BACKTICK)).
  { apply L. unfold not_brace, BACKTICK, LBRACE, RBRACE. lia. }
  split; [|split].
  - repeat (apply Forall_cons; [exact B|]).
    repeat (apply Forall_cons;
            [apply L; unfold not_brace, LBRACE, RBRACE; lia|]).
    apply Forall_cons; [exact W | apply Forall_nil].
  - repeat (apply Forall_cons; [exact B|]).
    apply Forall_cons; [exact W | apply Forall_nil].
  - apply Forall_cons; [exact W|].
    repeat (apply Forall_cons; [exact B|]). apply Forall_nil.
Qed.

Lemma brace_span_replace_bol (i : bool) (r : regex) (s : str) :
  Forall (atom_within i not_brace) r ->
  brace_span (replace_empty i (Bol :: r) s) = brace_span s.
Proof.
  intros H. destruct (replace_bol_prefix i not_brace r s H) as [pre [Hs Hp]].
  rewrite Hs at 2. now rewrite brace_span_app_l.
Qed.

Lemma brace_span_replace_eol (i : bool) (r : regex) (s : str) :
  Forall (atom_within i not_brace) r ->
  brace_span (replace_empty i (r ++ [Eol]) s) = brace_span s.
Proof.
  intros H. destruct (replace_eol_suffix i not_brace r s H) as [suf [Hs Hp]].
  rewrite Hs at 2. now rewrite brace_span_app_r.
Qed.

Lemma brace_span_cleanText (text : str) :
  brace_span (cleanText text) = brace_span text.
Proof.
  destruct fence_atoms_within as [H1 [H2 H3]].
  unfold cleanText.
  change re_fence_close
    with ([Star is_white_space; Chr BACKTICK; Chr BACKTICK; Chr BACKTICK]
            ++ [Eol]).
  rewrite brace_span_replace_eol by exact H3.
  unfold re_fence_open. rewrite brace_span_replace_bol by exact H2.
  unfold re_fence_json. rewrite brace_span_replace_bol by exact H1.
  apply brace_span_trim.
Qed.

(** The candidate is the span between the braces of the text as given. *)
Lemma jsonMatch_brace_span (text : str) : jsonMatch text = brace_span text.
Proof.
  unfold jsonMatch. now rewrite match_braces, brace_span_cleanText.
Qed.

Lemma starts_with_within (i : bool) (P : code_unit -> Prop) (p : str) :
  Forall (fun c => atom_within i P (Chr c)) p ->
  forall s, starts_with i p s = true ->
    Forall P (firstn (List.length p) s).
Proof.
  induction 1 as [|c p Hc _ IH]; intros s H; [constructor|].
  destruct s as [|ch s]; [discriminate|]. simpl in H.
  apply andb_true_iff in H. destruct H as [H1 H2].
  simpl. constructor; [now apply Hc | now apply IH].
Qed.

Lemma strip_leading_fence_prefix (s : str) :
  exists pre, s = pre ++ strip_leading_fence s /\ Forall not_brace pre.
Proof.
  assert (L : forall i c, not_brace c -> atom_within i not_brace (Chr c)).
  { intros i c H1 ch. now apply literal_not_brace. }
  unfold strip_leading_fence.
  destruct (starts_with true (lit "```json") s) eqn:H1;
    [|destruct (starts_with false (lit "```") s) eqn:H2].
  - exists (firstn 7 s). split; [now rewrite firstn_skipn|].
    apply (starts_with_within true not_brace (lit "```json")); [|assumption].
    vm_compute (lit _).
    repeat (apply Forall_cons;
            [apply L; unfold not_brace, LBRACE, RBRACE; lia|]).
    apply Forall_nil.
  - exists (firstn 3 s). split; [now rewrite firstn_skipn|].
    apply (starts_with_within false not_brace (lit "```")); [|assumption].
    vm_compute (lit _).
    repeat (apply Forall_cons;
            [apply L; unfold not_brace, LBRACE, RBRACE; lia|]).
    apply Forall_nil.
  - exists []. split; [reflexivity | constructor].
Qed.

Lemma strip_trailing_fence_suffix (s : str) :
  exists suf, s = strip_trailing_fence s ++ suf /\ Forall not_brace suf.
Proof.
  assert (L : forall c, not_brace c -> atom_within false not_brace (Chr c)).
  { intros c H1 ch. now apply literal_not_brace. }
  unfold strip_trailing_fence.
  destruct (starts_with false (lit "```") (rev s)) eqn:H.
  - exists (skipn (List.length s - 3) s). split; [now rewrite firstn_skipn|].
    apply (starts_with_within false not_brace (lit "```")) in H.
    + change (List.length (lit "```")) with 3 in H.
      rewrite firstn_rev in H. apply Forall_rev in H.
      now rewrite rev_involutive in H.
    + vm_compute (lit _).
      repeat (apply Forall_cons;
              [apply L; unfold not_brace, LBRACE, RBRACE; lia|]).
      apply Forall_nil.
  - exists []. split; [now rewrite app_nil_r | constructor].
Qed.

Lemma spec_candidate_brace_span (text : str) :
  spec_candidate text = brace_span text.
Proof.
  unfold spec_candidate.
  destruct (strip_trailing_fence_suffix (strip_leading_fence (trim text)))
    as [suf [H1 Hs]].
  destruct (strip_leading_fence_prefix (trim text)) as [pre [H2 Hp]].
  rewrite <- (brace_span_trim text).
  rewrite H2 at 2. rewrite brace_span_app_l by assumption.
  rewrite H1 at 2. now rewrite brace_span_app_r by assumption.
Qed.

(** ** The fuel of JSON.parse *)












(** ** Strings through QuoteJSONString and back *)

Lemma hex_value_digit (n : N) : (n < 16)%N -> hex_value (hex_digit n) = Some n.
Proof.
  intros H. destruct n as [|p]; [reflexivity|].
  do 4 (try destruct p as [p|p|]); try reflexivity; exfalso; lia.
Qed.

Lemma hex_recompose (c : N) :
  (c < 65536)%N ->
  ((((c / 4096) mod 16 * 16 + (c / 256) mod 16) * 16 + (c / 16) mod 16) * 16
   + c mod 16 = c)%N.
Proof.
  intros H.
  pose proof (N.div_mod c 16 ltac:(lia)).
  pose proof (N.div_mod (c / 16) 16 ltac:(lia)).
  pose proof (N.div_mod (c / 256) 16 ltac:(lia)).
  pose proof (N.mod_lt c 16 ltac:(lia)).
  pose proof (N.mod_lt (c / 16) 16 ltac:(lia)).
  pose proof (N.mod_lt (c / 256) 16 ltac:(lia)).
  assert ((c / 16) / 16 = c / 256)%N by (now rewrite N.Div0.div_div).
  assert ((c / 256) / 16 = c / 4096)%N by (now rewrite N.Div0.div_div).
  assert (c / 4096 < 16)%N by (apply N.Div0.div_lt_upper_bound; lia).
  rewrite (N.mod_small (c / 4096) 16) by assumption.
  lia.
Qed.

Lemma parse_chars_u (h1 h2 h3 h4 : code_unit) (rest : str) :
  parse_chars (92 :: 117 :: h1 :: h2 :: h3 :: h4 :: rest)%N =
  match hex4 h1 h2 h3 h4, parse_chars rest with
  | Some u, Some (t, r) => Some (u :: t, r)
  | _, _ => None
  end.
Proof. reflexivity. Qed.

Lemma parse_chars_plain (c : code_unit) (rest : str) :
  (32 <= c)%N -> c <> 34%N -> c <> 92%N ->
  parse_chars (c :: rest) =
  match parse_chars rest with
  | Some (t, r) => Some (c :: t, r)
  | None => None
  end.
Proof.
  intros H1 H2 H3. cbn [parse_chars].
  apply N.eqb_neq in H2, H3. apply N.ltb_ge in H1.
  now rewrite H2, H3, H1.
Qed.

Lemma parse_chars_unicode_escape (c : code_unit) (rest t r : str) :
  (c < 65536)%N -> parse_chars rest = Some (t, r) ->
  parse_chars (unicode_escape c ++ rest) = Some (c :: t, r).
Proof.
  intros Hc H. unfold unicode_escape.
  cbn [app]. rewrite parse_chars_u, H. unfold hex4.
  rewrite !hex_value_digit by (apply N.mod_lt; lia).
  now rewrite hex_recompose.
Qed.

Lemma parse_chars_quote_char (c : code_unit) (rest t r : str) :
  (c < 65536)%N -> parse_chars rest = Some (t, r) ->
  parse_chars (quote_char c ++ rest) = Some (c :: t, r).
Proof.
  intros Hc H. unfold quote_char.
  repeat match goal with
         | |- context [(c =? ?k)%N] =>
             destruct (N.eqb_spec c k) as [->|?];
             [cbn [app parse_chars N.eqb Pos.eqb unescape]; now rewrite H|]
         end.
  destruct (N.ltb_spec c 32).
  - now apply parse_chars_unicode_escape.
  - cbn [app]. rewrite parse_chars_plain, H by assumption. reflexivity.
Qed.

Lemma quote_chars_cons (c : code_unit) (s : str) :
  quote_chars (c :: s) =
  if is_high_surrogate c then
    match s with
    | d :: s' =>
        if is_low_surrogate d then c :: d :: quote_chars s'
        else unicode_escape c ++ quote_chars s
    | [] => unicode_escape c
    end
  else if is_low_surrogate c then unicode_escape c ++ quote_chars s
  else quote_char c ++ quote_chars s.
Proof. destruct s; reflexivity. Qed.

Lemma surrogate_range (c : code_unit) :
  is_high_surrogate c = true \/ is_low_surrogate c = true ->
  (32 <= c)%N /\ c <> 34%N /\ c <> 92%N /\ (c < 65536)%N.
Proof.
  unfold is_high_surrogate, is_low_surrogate.
  intros [H|H]; apply andb_true_iff in H; destruct H as [H1 H2];
    apply N.leb_le in H1, H2; lia.
Qed.

Lemma parse_chars_quote_chars_len (n : nat) :
  forall s rest, List.length s <= n ->
    parse_chars (quote_chars s ++ 34%N :: rest) = Some (s, rest).
Proof.
  induction n as [|n IH]; intros s rest Hn.
  - destruct s; [reflexivity | simpl in Hn; lia].
  - destruct s as [|c s]; [reflexivity|]. simpl in Hn.
    rewrite quote_chars_cons.
    destruct (is_high_surrogate c) eqn:Hh.
    + destruct (surrogate_range c (or_introl Hh)) as [C1 [C2 [C3 C4]]].
      destruct s as [|d s].
      * now apply parse_chars_unicode_escape.
      * destruct (is_low_surrogate d) eqn:Hl.
        -- destruct (surrogate_range d (or_intror Hl)) as [D1 [D2 [D3 D4]]].
           cbn [app]. rewrite !parse_chars_plain by assumption.
           rewrite IH by (simpl in Hn; lia). reflexivity.
        -- rewrite <- app_assoc. apply parse_chars_unicode_escape; [assumption|].
           apply IH. lia.
    + destruct (is_low_surrogate c) eqn:Hl.
      * destruct (surrogate_range c (or_intror Hl)) as [C1 [C2 [C3 C4]]].
        rewrite <- app_assoc. apply parse_chars_unicode_escape; [assumption|].
        apply IH. lia.
      * rewrite <- app_assoc.
        destruct (N.ltb_spec c 65536).
        -- apply parse_chars_quote_char; [assumption|]. apply IH. lia.
        -- unfold quote_char.
           repeat match goal with
                  | |- context [(c =? ?k)%N] =>
                      destruct (N.eqb_spec c k) as [->|?]; [lia|]
                  end.
           destruct (N.ltb_spec c 32); [lia|]. cbn [app].
           rewrite parse_chars_plain by lia.
           rewrite IH by lia. reflexivity.
Qed.

(** Reading back a quoted string gives the string. *)
Lemma parse_chars_quote_chars (s rest : str) :
  parse_chars (quote_chars s ++ 34%N :: rest) = Some (s, rest).
Proof. now apply (parse_chars_quote_chars_len (List.length s)). Qed.

(** ** Reading back serialized values *)

Lemma parse_value_string (f : nat) (x : str) :
  parse_value (S f) (34%N :: x) =
  match parse_chars x with
  | Some (t, r) => Some (JString t, r)
  | None => None
  end.
Proof. reflexivity. Qed.

Lemma parse_value_object (f : nat) (x : str) :
  parse_value (S f) (123%N :: 34%N :: x) =
  match parse_members f (34%N :: x) with
  | Some (l, r') => Some (JObject (object_of_members l), r')
  | None => None
  end.
Proof. reflexivity. Qed.

Lemma parse_value_array (f : nat) (x : str) :
  parse_value (S f) (91%N :: 123%N :: x) =
  match parse_elements f (123%N :: x) with
  | Some (l, r') => Some (JArray l, r')
  | None => None
  end.
Proof. reflexivity. Qed.

Lemma parse_elements_S (f : nat) (s : str) :
  parse_elements (S f) s =
  match parse_value f (skip_ws s) with
  | None => None
  | Some (v, r) =>
      if head_is 44%N (skip_ws r) then
        match parse_elements f (tl (skip_ws r)) with
        | Some (l, r'') => Some (v :: l, r'')
        | None => None
        end
      else if head_is 93%N (skip_ws r) then Some ([v], tl (skip_ws r))
      else None
  end.
Proof. reflexivity. Qed.

Lemma parse_members_quote (f : nat) (x : str) :
  parse_members (S f) (34%N :: x) =
  match parse_chars x with
  | None => None
  | Some (k, s2) =>
      if negb (head_is 58%N (skip_ws s2)) then None
      else
        match parse_value f (skip_ws (tl (skip_ws s2))) with
        | None => None
        | Some (v, r) =>
            if head_is 44%N (skip_ws r) then
              match parse_members f (tl (skip_ws r)) with
              | Some (l, r'') => Some ((k, v) :: l, r'')
              | None => None
              end
            else if head_is 125%N (skip_ws r)
            then Some ([(k, v)], tl (skip_ws r))
            else None
        end
  end.
Proof. reflexivity. Qed.

Lemma skip_ws_solid (t rest : str) : solid t -> skip_ws (t ++ rest) = t ++ rest.
Proof. intros [c [t' [-> H]]]. cbn [app skip_ws]. now rewrite H. Qed.

Lemma reads_le (n m : nat) (t : str) (v : value) :
  n <= m -> reads n t v -> reads m t v.
Proof. intros H R f rest Hf. apply R. lia. Qed.

Lemma QuoteJSONString_app (s rest : str) :
  QuoteJSONString s ++ rest = 34%N :: quote_chars s ++ 34%N :: rest.
Proof. unfold QuoteJSONString. cbn [app]. now rewrite <- app_assoc. Qed.

Lemma reads_string (s : str) : reads 1 (QuoteJSONString s) (JString s).
Proof.
  intros f rest Hf. destruct f as [|f]; [lia|].
  now rewrite QuoteJSONString_app, parse_value_string, parse_chars_quote_chars.
Qed.

Lemma solid_string (s : str) : solid (QuoteJSONString s).
Proof. unfold QuoteJSONString. now eexists _, _. Qed.

Lemma stringify_property_app (k t rest : str) :
  stringify_property k t ++ rest =
  34%N :: quote_chars k ++ 34%N :: 58%N :: t ++ rest.
Proof.
  unfold stringify_property. rewrite <- app_assoc, QuoteJSONString_app.
  reflexivity.
Qed.

Lemma reads_members_last (n : nat) (k t : str) (v : value) :
  reads n t v -> solid t ->
  reads_members (S n) (stringify_property k t ++ [125%N]) [(k, v)].
Proof.
  intros R St f rest Hf. destruct f as [|f]; [lia|].
  rewrite <- app_assoc, stringify_property_app, parse_members_quote.
  rewrite parse_chars_quote_chars. cbn [skip_ws is_json_ws N.eqb Pos.eqb orb head_is negb tl].
  rewrite skip_ws_solid, R by (assumption || lia).
  reflexivity.
Qed.

Lemma reads_members_cons (n m : nat) (k t more : str) (v : value)
  (l : list (str * value)) :
  reads n t v -> solid t -> reads_members m more l ->
  reads_members (S (Nat.max n m)) (stringify_property k t ++ 44%N :: more)
    ((k, v) :: l).
Proof.
  intros R St M f rest Hf. destruct f as [|f]; [lia|].
  rewrite <- app_assoc, stringify_property_app, parse_members_quote.
  rewrite parse_chars_quote_chars. cbn [skip_ws is_json_ws N.eqb Pos.eqb orb head_is negb tl].
  rewrite skip_ws_solid, R by (assumption || lia).
  cbn [app skip_ws is_json_ws N.eqb Pos.eqb orb head_is negb tl].
  rewrite M by lia. reflexivity.
Qed.

Lemma reads_members_join (n : nat) (p : property) (ps : list property) :
  Forall (fun p => reads n (snd (fst p)) (snd p) /\ solid (snd (fst p)))
    (p :: ps) ->
  reads_members (n + List.length (p :: ps))
    (join_comma (List.map property_text (p :: ps)) ++ [125%N])
    (List.map property_member (p :: ps)).
Proof.
  revert p. induction ps as [|p' ps IH]; intros p H;
    inversion H as [|? ? [R St] H']; subst.
  - cbn [join_comma List.map List.length].
    replace (n + 1) with (S n) by lia.
    destruct p as [[k t] v]. now apply reads_members_last.
  - specialize (IH p' H').
    change (join_comma (List.map property_text (p :: p' :: ps)))
      with (property_text p ++ 44%N ::
              join_comma (List.map property_text (p' :: ps))).
    rewrite <- app_assoc. cbn [app].
    replace (n + List.length (p :: p' :: ps))
      with (S (Nat.max n (n + List.length (p' :: ps))))
      by (cbn [List.length]; lia).
    destruct p as [[k t] v]. now apply reads_members_cons.
Qed.

Lemma reads_object (n : nat) (t : str) (l : list (str * value)) :
  reads_members n t l -> (exists x, t = 34%N :: x) ->
  reads (S n) (123%N :: t) (JObject (object_of_members l)).
Proof.
  intros M [x ->] f rest Hf. destruct f as [|f]; [lia|].
  cbn [app]. rewrite parse_value_object.
  change (34%N :: x ++ rest) with ((34%N :: x) ++ rest).
  now rewrite M by lia.
Qed.

Lemma reads_elements_join (n : nat) (e : str * value)
  (es : list (str * value)) :
  Forall (fun e => reads n (fst e) (snd e) /\ solid (fst e)) (e :: es) ->
  reads_elements (n + List.length (e :: es))
    (join_comma (List.map fst (e :: es)) ++ [93%N]) (List.map snd (e :: es)).
Proof.
  revert e. induction es as [|e' es IH]; intros e H;
    inversion H as [|? ? [R St] H']; subst; intros f rest Hf;
    (destruct f as [|f]; [cbn [List.length] in Hf; lia|]).
  - cbn [join_comma List.map List.length] in *.
    rewrite parse_elements_S, <- app_assoc.
    rewrite skip_ws_solid, R by (assumption || lia).
    reflexivity.
  - specialize (IH e' H').
    change (join_comma (List.map fst (e :: e' :: es)))
      with (fst e ++ 44%N :: join_comma (List.map fst (e' :: es))).
    cbn [List.length] in *.
    rewrite parse_elements_S, <- !app_assoc.
    rewrite skip_ws_solid, R by (assumption || lia).
    cbn [app skip_ws is_json_ws N.eqb Pos.eqb orb head_is negb tl].
    change (93%N :: rest) with ([93%N] ++ rest). rewrite app_assoc.
    rewrite IH by (cbn [List.length]; lia). reflexivity.
Qed.

Lemma reads_array (n : nat) (t : str) (l : list value) :
  reads_elements n t l -> (exists x, t = 123%N :: x) ->
  reads (S n) (91%N :: t) (JArray l).
Proof.
  intros M [x ->] f rest Hf. destruct f as [|f]; [lia|].
  cbn [app]. rewrite parse_value_array.
  change (123%N :: x ++ rest) with ((123%N :: x) ++ rest).
  now rewrite M by lia.
Qed.

Lemma reads_empty_array : reads 1 [91%N; 93%N] (JArray []).
Proof. intros f rest Hf. destruct f as [|f]; [lia | reflexivity]. Qed.

Lemma join_properties_head (p : property) (ps : list property) :
  exists x, join_comma (List.map property_text (p :: ps)) ++ [125%N] = 34%N :: x.
Proof.
  destruct ps as [|p' ps].
  - cbn [List.map join_comma]. unfold property_text.
    rewrite stringify_property_app. now eexists.
  - change (join_comma (List.map property_text (p :: p' :: ps)))
      with (property_text p ++ 44%N ::
              join_comma (List.map property_text (p' :: ps))).
    unfold property_text at 1.
    rewrite <- app_assoc, stringify_property_app. now eexists.
Qed.

Lemma reads_entry (k : KeywordEntry) :
  reads 7 (stringify_entry k) (entry_value k).
Proof.
  change (stringify_entry k)
    with (123%N ::
            join_comma (List.map property_text (entry_properties k))
            ++ [125%N]).
  change (entry_value k)
    with (JObject
            (object_of_members (List.map property_member (entry_properties k)))).
  apply (reads_object 6); [|apply join_properties_head].
  unfold entry_properties.
  match goal with
  | |- reads_members _ (join_comma (List.map _ (?p :: ?ps)) ++ _) _ =>
      apply (reads_members_join 1 p ps)
  end.
  repeat (apply Forall_cons;
          [split; [apply reads_string | apply solid_string]|]).
  apply Forall_nil.
Qed.

Lemma solid_entry (k : KeywordEntry) : solid (stringify_entry k).
Proof. unfold stringify_entry. now eexists _, _. Qed.

Lemma join_comma_length (l : list str) :
  Forall (fun x => 1 <= List.length x) l ->
  List.length l <= List.length (join_comma l).
Proof.
  induction 1 as [|x l Hx Hl IH]; [simpl; lia|].
  destruct l as [|y l]; [simpl; lia|].
  change (join_comma (x :: y :: l)) with (x ++ 44%N :: join_comma (y :: l)).
  rewrite length_app. simpl List.length in *. lia.
Qed.

Lemma reads_keywords (ks : list KeywordEntry) :
  reads (8 + List.length ks) (keywords_text ks)
    (JArray (List.map entry_value ks)).
Proof.
  unfold keywords_text. destruct ks as [|k ks].
  - apply (reads_le 1); [lia | apply reads_empty_array].
  - apply (reads_array (7 + List.length (k :: ks))).
    + pose proof (reads_elements_join 7
                    (stringify_entry k, entry_value k)
                    (List.map (fun k => (stringify_entry k, entry_value k)) ks))
        as H.
      cbn [List.map fst snd] in H.
      rewrite !List.map_map in H. cbn [fst snd] in H.
      cbn [List.length] in *. rewrite length_map in H.
      apply H. apply Forall_cons;
        [split; [apply reads_entry | apply solid_entry]|].
      apply Forall_forall. intros e He. apply in_map_iff in He.
      destruct He as [k' [<- _]].
      split; [apply reads_entry | apply solid_entry].
    + destruct ks; cbn [List.map join_comma]; unfold stringify_entry;
        cbn [app]; now eexists.
Qed.

Lemma solid_keywords (ks : list KeywordEntry) : solid (keywords_text ks).
Proof. unfold keywords_text. now eexists _, _. Qed.

Lemma reads_result (r : AnalysisResult) :
  reads (11 + List.length (keywords r)) (stringify_result r) (result_value r).
Proof.
  change (stringify_result r)
    with (123%N ::
            join_comma (List.map property_text (result_properties r))
            ++ [125%N]).
  change (result_value r)
    with (JObject
            (object_of_members
               (List.map property_member (result_properties r)))).
  apply (reads_le (S (8 + List.length (keywords r) + 2))); [lia|].
  apply (reads_object (8 + List.length (keywords r) + 2));
    [|apply join_properties_head].
  unfold result_properties.
  match goal with
  | |- reads_members _ (join_comma (List.map _ (?p :: ?ps)) ++ _) _ =>
      apply (reads_members_join (8 + List.length (keywords r)) p ps)
  end.
  apply Forall_cons; [split; [|apply solid_string]|].
  - apply (reads_le 1); [lia | apply reads_string].
  - apply Forall_cons; [|apply Forall_nil].
    split; [apply reads_keywords | apply solid_keywords].
Qed.

Lemma stringify_result_length (r : AnalysisResult) :
  10 + List.length (keywords r) <= List.length (stringify_result r).
Proof.
  pose proof (join_comma_length (List.map stringify_entry (keywords r))) as H.
  rewrite length_map in H.
  assert (H' : List.length (keywords r)
               <= List.length
                    (join_comma (List.map stringify_entry (keywords r)))).
  { apply H. apply Forall_forall. intros e He. apply in_map_iff in He.
    destruct He as [k' [<- _]]. unfold stringify_entry. simpl. lia. }
  clear H. unfold stringify_result, stringify_property. cbn [join_comma].
  unfold str, code_unit in *.
  repeat (rewrite length_app || cbn [List.length]).
  change (List.length (QuoteJSONString (lit "keywords"))) with 10.
  lia.
Qed.

Lemma JSON_parse_reads (n : nat) (t : str) (v : value) :
  reads n t v -> solid t -> n <= S (List.length t) -> JSON_parse t = Some v.
Proof.
  intros R St Hn. unfold JSON_parse.
  rewrite <- (app_nil_r t) at 2. rewrite skip_ws_solid by assumption.
  now rewrite R.
Qed.

(** [JSON.parse(JSON.stringify(r))] is [r] again. *)
Lemma JSON_parse_stringify_result (r : AnalysisResult) :
  JSON_parse (stringify_result r) = Some (result_value r).
Proof.
  apply (JSON_parse_reads (11 + List.length (keywords r))).
  - apply reads_result.
  - unfold stringify_result. now eexists _, _.
  - pose proof (stringify_result_length r). lia.
Qed.

(** ** Objects *)

Lemma str_eqb_eq (a b : str) : str_eqb a b = true <-> a = b.
Proof.
  revert b. induction a as [|x a IH]; intros [|y b]; simpl;
    try (split; [discriminate | discriminate]); [tauto|].
  rewrite andb_true_iff, N.eqb_eq, IH. split.
  - now intros [-> ->].
  - intros H. injection H as -> ->. now split.
Qed.

Lemma str_eqb_refl (a : str) : str_eqb a a = true.
Proof. now apply str_eqb_eq. Qed.

Lemma str_eqb_neq (a b : str) : str_eqb a b = false <-> a <> b.
Proof.
  rewrite <- str_eqb_eq. destruct (str_eqb a b); split; congruence.
Qed.

Lemma own_set_same (k : str) (v : value) (m : object) :
  own k (set k v m) = Some v.
Proof.
  induction m as [|[k' v'] m IH]; simpl.
  - now rewrite str_eqb_refl.
  - destruct (str_eqb k k') eqn:E; simpl; rewrite E; [reflexivity | exact IH].
Qed.

Lemma own_set_other (k k' : str) (v : value) (m : object) :
  k <> k' -> own k (set k' v m) = own k m.
Proof.
  intros Hk. induction m as [|[k'' v''] m IH]; simpl.
  - apply str_eqb_neq in Hk. now rewrite Hk.
  - destruct (str_eqb k' k'') eqn:E; simpl.
    + apply str_eqb_eq in E. subst k''.
      apply str_eqb_neq in Hk. now rewrite Hk.
    + now rewrite IH.
Qed.

(** ** Computations *)

Lemma bind_ret_inv {A B : Type} (p : prog A) (f : A -> prog B) (b : B) :
  bind p f = Ret b -> exists a, p = Ret a /\ f a = Ret b.
Proof. destruct p; simpl; intros H; try discriminate. eauto. Qed.

Lemma try_catch_throw_ret {A : Type} (p : prog A) (g : thrown -> thrown)
  (a : A) :
  try_catch p (fun e => Throw (g e)) = Ret a -> p = Ret a.
Proof. destruct p; simpl; intros H; try discriminate. exact H. Qed.

(** ** The keyword entries *)

Lemma keyword_entry_spec (k : value) :
  Analyze.keyword_entry k =
  if is_null k then Throw (Exn (TypeError_nullish (lit "word")))
  else Ret (entry_of k).
Proof. destruct k; reflexivity. Qed.

Lemma keyword_entry_four_spec (k : value) :
  Part000.keyword_entry k =
  if is_null k then Throw (Exn (TypeError_nullish (lit "word")))
  else Ret (entry_of_four k).
Proof. destruct k; reflexivity. Qed.

Lemma Array_map_spec (f : value -> prog value) (g : value -> value)
  (l : list value) :
  (forall k, f k = if is_null k
                   then Throw (Exn (TypeError_nullish (lit "word")))
                   else Ret (g k)) ->
  Array_map f l =
  if existsb is_null l then Throw (Exn (TypeError_nullish (lit "word")))
  else Ret (List.map g l).
Proof.
  intros Hf. induction l as [|k l IH]; [reflexivity|].
  cbn [Array_map existsb List.map]. rewrite Hf.
  destruct (is_null k); [reflexivity|]. cbn [bind orb].
  rewrite IH. now destruct (existsb is_null l).
Qed.

(** ** The candidate parses to an object *)

Lemma index_of_skipn (c : code_unit) (s : str) (i : nat) :
  index_of c s = Some i -> exists x, skipn i s = c :: x.
Proof.
  revert i. induction s as [|y s IH]; intros i H; simpl in H; [discriminate|].
  destruct (N.eqb_spec y c) as [->|Hy].
  - injection H as <-. now eexists.
  - destruct (index_of c s) as [j|]; [|discriminate].
    injection H as <-. apply (IH j eq_refl).
Qed.

Lemma brace_span_head (s c : str) :
  brace_span s = Some c -> exists x, c = LBRACE :: x.
Proof.
  unfold brace_span. intros H.
  destruct (index_of LBRACE s) as [i|] eqn:Hi; [|discriminate].
  destruct (last_index_of RBRACE s) as [j|]; [|discriminate].
  destruct (Nat.ltb i j); [|discriminate]. injection H as <-.
  destruct (index_of_skipn _ _ _ Hi) as [x ->].
  replace (j - i + 1) with (S (j - i)) by lia. now eexists.
Qed.

Lemma parse_value_brace (f : nat) (x r : str) (v : value) :
  parse_value f (LBRACE :: x) = Some (v, r) -> exists m, v = JObject m.
Proof.
  destruct f as [|f]; [discriminate|].
  unfold LBRACE. cbn [parse_value N.eqb Pos.eqb].
  intros H.
  repeat match type of H with
         | context [match ?t with _ => _ end] => destruct t
         end;
    try discriminate; injection H as <- _; eauto.
Qed.

Lemma JSON_parse_brace_object (x : str) (v : value) :
  JSON_parse (LBRACE :: x) = Some v -> exists m, v = JObject m.
Proof.
  unfold JSON_parse. change (skip_ws (LBRACE :: x)) with (LBRACE :: x).
  destruct (parse_value _ (LBRACE :: x)) as [[v' r]|] eqn:H; [|discriminate].
  destruct (skip_ws r); [|discriminate]. intros E. injection E as <-.
  eapply parse_value_brace, H.
Qed.

(** ** The coercion of the parsed object *)

Lemma translation_neq_keywords : lit "translation" <> lit "keywords".
Proof. discriminate. Qed.

Lemma own_with_defaults_translation (parsed : object) :
  own (lit "translation") (with_defaults parsed) =
  Some (or_else (own (lit "translation") parsed) empty).
Proof.
  unfold with_defaults.
  set (p1 := if negb (truthy_opt (own (lit "translation") parsed))
             then set (lit "translation") empty parsed else parsed).
  assert (H1 : own (lit "translation") p1 =
               Some (or_else (own (lit "translation") parsed) empty)).
  { subst p1. unfold or_else, truthy_opt.
    destruct (own (lit "translation") parsed) as [t|] eqn:E.
    - destruct (truthy t); cbn [negb]; [exact E | apply own_set_same].
    - apply own_set_same. }
  destruct (negb (Array_isArray (own (lit "keywords") p1))); [|exact H1].
  rewrite own_set_other by exact translation_neq_keywords. exact H1.
Qed.

Lemma own_with_defaults_keywords (parsed : object) :
  own (lit "keywords") (with_defaults parsed) =
  Some (JArray (elements (own (lit "keywords") parsed))).
Proof.
  unfold with_defaults.
  set (p1 := if negb (truthy_opt (own (lit "translation") parsed))
             then set (lit "translation") empty parsed else parsed).
  assert (H1 : own (lit "keywords") p1 = own (lit "keywords") parsed).
  { subst p1.
    destruct (negb (truthy_opt (own (lit "translation") parsed)));
      [|reflexivity].
    apply own_set_other. intros E. now apply translation_neq_keywords. }
  rewrite H1.
  destruct (own (lit "keywords") parsed) as [[]|] eqn:E; cbn [Array_isArray negb elements];
    try apply own_set_same.
  now rewrite H1.
Qed.

Lemma own_with_defaults_other (k : str) (parsed : object) :
  k <> lit "translation" -> k <> lit "keywords" ->
  own k (with_defaults parsed) = own k parsed.
Proof.
  intros Ht Hk. unfold with_defaults.
  set (p1 := if negb (truthy_opt (own (lit "translation") parsed))
             then set (lit "translation") empty parsed else parsed).
  assert (H1 : own k p1 = own k parsed).
  { subst p1.
    destruct (negb (truthy_opt (own (lit "translation") parsed)));
      [|reflexivity].
    now apply own_set_other. }
  destruct (negb (Array_isArray (own (lit "keywords") p1))); [|exact H1].
  now rewrite own_set_other.
Qed.

Lemma set_set (k : str) (a b : value) (m : object) :
  set k a (set k b m) = set k a m.
Proof.
  induction m as [|[k' v'] m IH]; simpl.
  - now rewrite str_eqb_refl.
  - destruct (str_eqb k k') eqn:E; simpl; rewrite E; [reflexivity|].
    now rewrite IH.
Qed.

(** The outcome of the coercion: it throws on a [null] element of
    [keywords], and otherwise returns the parsed object with its defaults
    and the first five entries. *)
Lemma coerce_spec (parsed : object) :
  Analyze.coerce parsed =
  if existsb is_null (elements (own (lit "keywords") parsed))
  then Throw (Exn (TypeError_nullish (lit "word")))
  else
    Ret (JObject
           (set (lit "keywords")
              (JArray
                 (slice0 5
                    (List.map entry_of
                       (elements (own (lit "keywords") parsed)))))
              (with_defaults parsed))).
Proof.
  unfold Analyze.coerce. fold (with_defaults parsed).
  rewrite own_with_defaults_keywords. cbn [elements].
  rewrite (Array_map_spec _ entry_of _ keyword_entry_spec).
  now destruct (existsb is_null (elements (own (lit "keywords") parsed))).
Qed.

Lemma coerce_four_spec (parsed : object) :
  Part000.coerce parsed =
  if existsb is_null (elements (own (lit "keywords") parsed))
  then Throw (Exn (TypeError_nullish (lit "word")))
  else
    Ret (JObject
           (set (lit "keywords")
              (JArray
                 (slice0 5
                    (List.map entry_of_four
                       (elements (own (lit "keywords") parsed)))))
              (with_defaults parsed))).
Proof.
  unfold Part000.coerce. fold (with_defaults parsed).
  rewrite own_with_defaults_keywords. cbn [elements].
  rewrite (Array_map_spec _ entry_of_four _ keyword_entry_four_spec).
  destruct (existsb is_null (elements (own (lit "keywords") parsed)));
    [reflexivity|].
  cbn [bind]. now rewrite own_set_same, set_set.
Qed.

(** What a successful call of [parseAIResponse] went through. *)
Lemma parseAIResponse_ret (text : str) (v : value) :
  Analyze.parseAIResponse text = Ret v ->
  exists candidate parsed,
    jsonMatch text = Some candidate /\
    JSON_parse candidate = Some (JObject parsed) /\
    existsb is_null (elements (own (lit "keywords") parsed)) = false /\
    v = JObject
          (set (lit "keywords")
             (JArray
                (slice0 5
                   (List.map entry_of
                      (elements (own (lit "keywords") parsed)))))
             (with_defaults parsed)).
Proof.
  unfold Analyze.parseAIResponse, Analyze.parse_candidate.
  destruct (jsonMatch text) as [candidate|] eqn:Hm; [|discriminate].
  intros H. apply try_catch_throw_ret in H.
  destruct (JSON_parse candidate) as [[| | | | |parsed]|] eqn:Hp;
    try discriminate.
  rewrite coerce_spec in H.
  destruct (existsb is_null (elements (own (lit "keywords") parsed))) eqn:E;
    [discriminate|].
  injection H as <-. now exists candidate, parsed.
Qed.

(** The last branch of the match in [parse_candidate] is dead code. *)
Lemma parsed_candidate_is_object (text candidate : str) (v : value) :
  jsonMatch text = Some candidate -> JSON_parse candidate = Some v ->
  exists parsed, v = JObject parsed.
Proof.
  rewrite jsonMatch_brace_span. intros H.
  destruct (brace_span_head _ _ H) as [x ->]. apply JSON_parse_brace_object.
Qed.

(** Coercion is total apart from [null] elements: when the candidate parses
    and no element of [keywords] is [null], a result is returned. *)
Lemma parseAIResponse_total_without_null (text candidate : str)
  (parsed : object) :
  jsonMatch text = Some candidate ->
  JSON_parse candidate = Some (JObject parsed) ->
  existsb is_null (elements (own (lit "keywords") parsed)) = false ->
  exists v, Analyze.parseAIResponse text = Ret v.
Proof.
  intros H1 H2 H3. unfold Analyze.parseAIResponse, Analyze.parse_candidate.
  rewrite H1, H2, coerce_spec, H3. cbn [try_catch]. eauto.
Qed.

(** ** The fence patterns, one by one *)

Lemma chr_backtick (i : bool) (ch : code_unit) :
  chr_matches i BACKTICK ch = (ch =? BACKTICK)%N.
Proof.
  destruct i; cbn [chr_matches]; [|apply N.eqb_sym].
  change (canonicalize BACKTICK) with BACKTICK. unfold BACKTICK.
  destruct (canonicalize_cases ch) as [E|[R E]]; rewrite E.
  - apply N.eqb_sym.
  - destruct (N.eqb_spec 96 (ch - 32)), (N.eqb_spec ch 96); lia || reflexivity.
Qed.

Lemma starts_with_backticks (s : str) :
  starts_with true (lit "```") s = starts_with false (lit "```") s.
Proof.
  change (lit "```") with [BACKTICK; BACKTICK; BACKTICK].
  destruct s as [|a [|b [|c s]]]; cbn [starts_with];
    rewrite ?chr_backtick; reflexivity.
Qed.

Lemma star_white_here (i b : bool) (s : str) :
  match_here i [Star is_white_space] b s = Some (white_run s).
Proof.
  revert b. induction s as [|c s IH]; intros b; rewrite match_here_star.
  - reflexivity.
  - cbn [white_run]. destruct (is_white_space c); [|reflexivity].
    now rewrite IH.
Qed.

Lemma skipn_white_run (s : str) : skipn (white_run s) s = trimStart s.
Proof.
  induction s as [|c s IH]; [reflexivity|]. cbn [white_run trimStart].
  destruct (is_white_space c); [exact IH | reflexivity].
Qed.

(** A literal followed by [\s*], tried at the head of [s]. *)
Lemma fence_here (i : bool) (p : str) :
  forall b s,
    match_here i (List.map Chr p ++ [Star is_white_space]) b s =
    if starts_with i p s
    then Some (List.length p + white_run (skipn (List.length p) s))
    else None.
Proof.
  induction p as [|c p IH]; intros b s.
  - apply star_white_here.
  - cbn [List.map app]. rewrite match_here_chr.
    destruct s as [|ch s]; [reflexivity|]. cbn [starts_with].
    destruct (chr_matches i c ch); [|reflexivity].
    cbn [andb]. rewrite IH. now destruct (starts_with i p s).
Qed.

(** [s.replace(/^lit\s*/, '')]: the literal at the head of [s] goes, with
    the white space after it. *)
Lemma replace_fence_bol (i : bool) (p s : str) :
  replace_empty i (Bol :: List.map Chr p ++ [Star is_white_space]) s =
  if starts_with i p s then trimStart (skipn (List.length p) s) else s.
Proof.
  unfold replace_empty. rewrite exec_bol, fence_here.
  destruct (starts_with i p s); [|reflexivity].
  cbn [option_map firstn app]. cbn [Nat.add].
  rewrite Nat.add_comm, <- skipn_skipn. apply skipn_white_run.
Qed.

Lemma fence_eol_here (b : bool) (s : str) :
  match_here true [Chr BACKTICK; Chr BACKTICK; Chr BACKTICK; Eol] b s =
  if str_eqb s (lit "```") then Some 3 else None.
Proof.
  change (lit "```") with [BACKTICK; BACKTICK; BACKTICK].
  destruct s as [|c1 s]; [reflexivity|].
  rewrite match_here_chr, chr_backtick. cbn [str_eqb].
  destruct (c1 =? BACKTICK)%N; [|reflexivity]. cbn [andb].
  destruct s as [|c2 s]; [reflexivity|].
  rewrite match_here_chr, chr_backtick. cbn [str_eqb].
  destruct (c2 =? BACKTICK)%N; [|reflexivity]. cbn [andb].
  destruct s as [|c3 s]; [reflexivity|].
  rewrite match_here_chr, chr_backtick. cbn [str_eqb].
  destruct (c3 =? BACKTICK)%N; [|reflexivity]. cbn [andb].
  destruct s; reflexivity.
Qed.

(** [\s*```$] matches at the head of [s] when [s] is white space followed by
    the marker and nothing else; the match is all of [s]. *)
Lemma close_here (s : str) :
  forall b,
    match_here true re_fence_close b s =
    if str_eqb (trimStart s) (lit "```") then Some (List.length s) else None.
Proof.
  unfold re_fence_close.
  induction s as [|ch s IH]; intros b; rewrite match_here_star.
  - reflexivity.
  - cbn [trimStart]. destruct (is_white_space ch) eqn:Hw.
    + rewrite IH. destruct (str_eqb (trimStart s) (lit "```")); [reflexivity|].
      rewrite fence_eol_here.
      change (lit "```") with [BACKTICK; BACKTICK; BACKTICK]. cbn [str_eqb].
      destruct (N.eqb_spec ch BACKTICK) as [->|]; [discriminate Hw | reflexivity].
    + rewrite fence_eol_here.
      destruct (str_eqb (ch :: s) (lit "```")) eqn:E; [|reflexivity].
      apply str_eqb_eq in E. now rewrite E.
Qed.

Lemma trimStart_white (w s : str) :
  Forall is_white w -> trimStart (w ++ s) = trimStart s.
Proof.
  induction 1 as [|c w Hc _ IH]; [reflexivity|].
  cbn [app trimStart]. now rewrite Hc.
Qed.

Lemma trimStart_split (s : str) :
  exists w, s = w ++ trimStart s /\ Forall is_white w.
Proof.
  induction s as [|c s [w [Hs Hw]]]; cbn [trimStart].
  - exists []. split; [reflexivity | constructor].
  - destruct (is_white_space c) eqn:Hc.
    + exists (c :: w). split; [cbn [app]; now f_equal | now constructor].
    + exists []. split; [reflexivity | constructor].
Qed.

Lemma trimStart_head (s v : str) (x : code_unit) :
  trimStart s = x :: v -> is_white_space x = false.
Proof.
  induction s as [|c s IH]; cbn [trimStart]; [discriminate|].
  destruct (is_white_space c) eqn:Hc; [exact IH|].
  intros H. injection H as <- _. exact Hc.
Qed.

Lemma trimStart_solid_length (t y : str) (x : code_unit) :
  is_white_space x = false ->
  List.length y < List.length (trimStart (t ++ x :: y)).
Proof.
  intros Hx. induction t as [|c t IH]; cbn [app trimStart].
  - rewrite Hx. cbn [List.length]. lia.
  - destruct (is_white_space c); [exact IH|].
    cbn [List.length]. rewrite length_app. cbn [List.length]. lia.
Qed.

Lemma exec_from_cons (i : bool) (r : regex) (b : bool) (c : code_unit)
  (s : str) :
  exec_from i r b (c :: s) =
  match match_here i r b (c :: s) with
  | Some n => Some (0, n)
  | None => option_map (fun m => (S (fst m), snd m)) (exec_from i r false s)
  end.
Proof. reflexivity. Qed.

Lemma exec_from_here (i : bool) (r : regex) (b : bool) (s : str) (n : nat) :
  match_here i r b s = Some n -> exec_from i r b s = Some (0, n).
Proof. intros H. destruct s; cbn [exec_from]; now rewrite H. Qed.

Lemma exec_close_white (b : bool) (w : str) :
  Forall is_white w ->
  exec_from true re_fence_close b (w ++ lit "```") =
  Some (0, List.length w + 3).
Proof.
  intros Hw. apply exec_from_here. rewrite close_here.
  rewrite trimStart_white by assumption.
  change (trimStart (lit "```")) with (lit "```").
  rewrite str_eqb_refl, length_app. reflexivity.
Qed.

Lemma exec_close_solid (t w : str) (x : code_unit) :
  is_white_space x = false -> Forall is_white w ->
  forall b,
    exec_from true re_fence_close b (t ++ x :: w ++ lit "```") =
    Some (S (List.length t), List.length w + 3).
Proof.
  intros Hx Hw.
  assert (N : forall t',
             str_eqb (trimStart (t' ++ x :: w ++ lit "```")) (lit "```")
             = false).
  { intros t'. apply str_eqb_neq. intros E.
    pose proof (trimStart_solid_length t' (w ++ lit "```") x Hx) as L.
    rewrite E, length_app in L.
    change (List.length (lit "```")) with 3 in L. lia. }
  induction t as [|c t IH]; intros b; cbn [app];
    rewrite exec_from_cons, close_here.
  - pose proof (N []) as N0. cbn [app] in N0. rewrite N0.
    rewrite exec_close_white by assumption. reflexivity.
  - pose proof (N (c :: t)) as N1. cbn [app] in N1. rewrite N1.
    rewrite IH. reflexivity.
Qed.

Lemma starts_with_eq (p s : str) :
  starts_with false p s = true <-> exists r, s = p ++ r.
Proof.
  revert s. induction p as [|a p IH]; intros s; cbn [starts_with].
  - split; [intros _; now exists s | reflexivity].
  - destruct s as [|c s]; [split; [discriminate | now intros [r H]]|].
    cbn [chr_matches]. rewrite andb_true_iff, IH, N.eqb_eq. split.
    + intros [-> [r ->]]. now exists r.
    + intros [r H]. injection H as -> ->. split; [reflexivity | now exists r].
Qed.

Lemma exec_close_none (s : str) (b : bool) :
  starts_with false (lit "```") (rev s) = false ->
  exec_from true re_fence_close b s = None.
Proof.
  intros H. destruct (exec_from true re_fence_close b s) as [[start n]|] eqn:E;
    [|reflexivity].
  destruct (exec_from_match _ _ _ _ _ _ E) as [_ [b' Hm]].
  rewrite close_here in Hm.
  destruct (str_eqb (trimStart (skipn start s)) (lit "```")) eqn:Ht;
    [|discriminate].
  apply str_eqb_eq in Ht.
  destruct (trimStart_split (skipn start s)) as [w [Hs _]].
  rewrite Ht in Hs.
  assert (F : starts_with false (lit "```") (rev s) = true).
  { apply starts_with_eq. exists (rev (firstn start s ++ w)).
    rewrite <- (firstn_skipn start s) at 1. rewrite Hs, app_assoc.
    now rewrite rev_app_distr. }
  congruence.
Qed.

(** [s.replace(/\s*```$/, '')]: the marker at the end of [s] goes, with the
    white space before it. *)
Lemma replace_fence_close (s : str) :
  replace_empty true re_fence_close s = strip_closing_fence s.
Proof.
  unfold replace_empty, exec, strip_closing_fence.
  destruct (starts_with false (lit "```") (rev s)) eqn:H.
  - apply starts_with_eq in H. destruct H as [u H].
    assert (Hs : s = rev u ++ lit "```").
    { rewrite <- (rev_involutive s), H, rev_app_distr. reflexivity. }
    assert (Hu : firstn (List.length s - 3) s = rev u).
    { rewrite Hs, length_app. change (List.length (lit "```")) with 3.
      replace (List.length (rev u) + 3 - 3) with (List.length (rev u) + 0)
        by lia.
      now rewrite firstn_app_2, firstn_O, app_nil_r. }
    rewrite Hu. unfold trimEnd. rewrite rev_involutive. clear H Hu.
    destruct (trimStart_split u) as [w [Hw Fw]].
    destruct (trimStart u) as [|x v] eqn:Ev.
    + rewrite app_nil_r in Hw. subst w s.
      rewrite exec_close_white by now apply Forall_rev.
      cbn [firstn app Nat.add].
      rewrite skipn_all2; [reflexivity|]. rewrite length_app.
      change (List.length (lit "```")) with 3. lia.
    + pose proof (trimStart_head _ _ _ Ev) as Hx.
      assert (Hs' : s = rev v ++ x :: rev w ++ lit "```").
      { rewrite Hs, Hw, rev_app_distr. cbn [rev].
        now rewrite <- !app_assoc. }
      clear Hs. subst s.
      rewrite exec_close_solid by (assumption || now apply Forall_rev).
      rewrite skipn_all2
        by (rewrite !length_app; cbn [List.length]; rewrite length_app;
            change (List.length (lit "```")) with 3; lia).
      rewrite app_nil_r.
      change (x :: rev w ++ lit "```") with ([x] ++ (rev w ++ lit "```")).
      rewrite app_assoc.
      replace (S (List.length (rev v)))
        with (List.length (rev v ++ [x]) + 0)
        by (rewrite length_app; cbn [List.length]; lia).
      now rewrite firstn_app_2, firstn_O, app_nil_r.
  - now rewrite exec_close_none.
Qed.

(** The text that [parseAIResponse] searches for the braces. *)
Lemma cleanText_cleaned (text : str) : cleanText text = cleaned text.
Proof.
  unfold cleanText, cleaned. rewrite replace_fence_close. f_equal.
  change re_fence_open
    with (Bol :: List.map Chr (lit "```") ++ [Star is_white_space]).
  rewrite replace_fence_bol, starts_with_backticks.
  change re_fence_json
    with (Bol :: List.map Chr (lit "```json") ++ [Star is_white_space]).
  now rewrite replace_fence_bol.
Qed.

(** * The normalizer *)

Lemma last_index_of_snoc (c : code_unit) (x : str) :
  last_index_of c (x ++ [c]) = Some (List.length x).
Proof.
  induction x as [|y x IH]; simpl.
  - now rewrite N.eqb_refl.
  - now rewrite IH.
Qed.

Lemma brace_span_whole (x : str) :
  brace_span (LBRACE :: x ++ [RBRACE]) = Some (LBRACE :: x ++ [RBRACE]).
Proof.
  unfold brace_span. cbn [index_of last_index_of]. rewrite N.eqb_refl.
  rewrite last_index_of_snoc. cbn [Nat.ltb Nat.leb skipn].
  f_equal. apply firstn_all2. simpl. rewrite length_app. simpl. lia.
Qed.

Lemma entry_of_entry_value (k : KeywordEntry) :
  entry_of (entry_value k) = entry_value k.
Proof.
  destruct k as [w p r o m]. unfold entry_of, entry_value.
  cbn [Get own str_eqb lit List.map list_ascii_of_string N_of_ascii
         N.eqb Pos.eqb andb N_of_digits N.add N.mul Pos.add Pos.mul
         word phonetic roots origin meaning].
  unfold or_else, truthy, empty.
  now destruct w, p, r, o, m.
Qed.

Lemma map_entry_of_entry_value (ks : list KeywordEntry) :
  List.map entry_of (List.map entry_value ks) = List.map entry_value ks.
Proof.
  induction ks as [|k ks IH]; [reflexivity|].
  cbn [List.map]. now rewrite entry_of_entry_value, IH.
Qed.

Lemma no_null_entry_value (ks : list KeywordEntry) :
  existsb is_null (List.map entry_value ks) = false.
Proof. induction ks as [|k ks IH]; [reflexivity | exact IH]. Qed.

Lemma coerce_result_value (r : AnalysisResult) :
  List.length (keywords r) <= 5 ->
  Analyze.coerce
    [(lit "translation", JString (translation r));
     (lit "keywords", JArray (List.map entry_value (keywords r)))] =
  Ret (result_value r).
Proof.
  intros Hn. rewrite coerce_spec.
  change (own (lit "keywords")
            [(lit "translation", JString (translation r));
             (lit "keywords", JArray (List.map entry_value (keywords r)))])
    with (Some (JArray (List.map entry_value (keywords r)))).
  cbn [elements]. rewrite no_null_entry_value, map_entry_of_entry_value.
  unfold slice0. rewrite firstn_all2 by (now rewrite length_map).
  unfold with_defaults.
  change (own (lit "translation")
            [(lit "translation", JString (translation r));
             (lit "keywords", JArray (List.map entry_value (keywords r)))])
    with (Some (JString (translation r))).
  unfold result_value. destruct (translation r); reflexivity.
Qed.

Lemma jsonMatch_stringify_result (r : AnalysisResult) :
  jsonMatch (stringify_result r) = Some (stringify_result r).
Proof.
  rewrite jsonMatch_brace_span. unfold stringify_result.
  apply brace_span_whole.
Qed.

(** C9. Normalizer idempotence: the normalizer applied to the JSON
    serialization of a canonical result (a string translation and at most
    five keyword entries of five string fields) returns that result. *)
Theorem normalize_canonical_result (r : AnalysisResult) :
  List.length (keywords r) <= 5 ->
  Analyze.parseAIResponse (stringify_result r) = Ret (result_value r).
Proof.
  intros Hn. unfold Analyze.parseAIResponse, Analyze.parse_candidate.
  rewrite jsonMatch_stringify_result, JSON_parse_stringify_result.
  unfold result_value at 1. rewrite coerce_result_value by assumption.
  reflexivity.
Qed.

(** C7, as stated, fails: from a text that opens with [```json```] the code
    removes both markers where the steps of the specification remove one,
    and from a fenced block it removes the line ends next to the markers,
    which the steps of the specification leave. *)
Lemma both_leading_fences_stripped :
  cleanText two_fences_text = lit "{}" /\
  strip_trailing_fence (strip_leading_fence (trim two_fences_text)) =
  lit "```{}" /\
  cleanText fenced_block_text = lit "{}" /\
  strip_trailing_fence (strip_leading_fence (trim fenced_block_text)) =
  [10%N] ++ lit "{}" ++ [10%N] /\
  ~ (forall text,
       cleanText text =
       strip_trailing_fence (strip_leading_fence (trim text))).
Proof.
  assert (H1 : cleanText two_fences_text = lit "{}") by (vm_compute; reflexivity).
  assert (H2 : strip_trailing_fence (strip_leading_fence (trim two_fences_text))
               = lit "```{}") by (vm_compute; reflexivity).
  split; [exact H1|]. split; [exact H2|].
  split; [vm_compute; reflexivity|]. split; [vm_compute; reflexivity|].
  intros A. specialize (A two_fences_text). rewrite H1, H2 in A.
  discriminate A.
Qed.

(** C7, amended. The steps of the normalizer up to the candidate, in order:
    the text is trimmed; a leading [```json] in any case goes with the white
    space after it; then a leading [```] goes with the white space after it;
    then a trailing [```] goes with the white space before it; the candidate
    is the first opening brace through the last closing brace of what is
    left, and without one the normalizer fails with
    [Could not parse AI response as JSON]. Nothing that goes holds a brace:
    the candidate is the one of the steps as the specification words them. *)
Theorem parseAIResponse_cleaning_steps (text : str) :
  cleanText text = cleaned text /\
  jsonMatch text = brace_span (cleaned text) /\
  Analyze.parseAIResponse text =
  match brace_span (cleaned text) with
  | None => Throw (Error (JString (lit "Could not parse AI response as JSON")))
  | Some candidate => Analyze.parse_candidate candidate
  end /\
  brace_span (cleaned text) = spec_candidate text.
Proof.
  assert (H : jsonMatch text = brace_span (cleaned text)).
  { unfold jsonMatch. now rewrite match_braces, cleanText_cleaned. }
  split; [apply cleanText_cleaned|]. split; [exact H|]. split.
  - unfold Analyze.parseAIResponse. now rewrite H.
  - now rewrite <- H, jsonMatch_brace_span, spec_candidate_brace_span.
Qed.

(** Example inputs *)

Lemma normalize_canonical_result_witness :
  List.length (keywords canonical_example) <= 5 /\
  Analyze.parseAIResponse (stringify_result canonical_example) =
  Ret (result_value canonical_example).
Proof.
  split; [simpl; lia | apply normalize_canonical_result; simpl; lia].
Defined.

(** C1. The candidate [{"keywords":[null]}] is valid JSON, and the
    normalizer fails on it: reading [word] of the [null] element throws,
    and the catch clause turns that into a parse failure. *)
Theorem null_keyword_fails :
  jsonMatch null_keyword_text = Some null_keyword_text /\
  JSON_parse null_keyword_text =
  Some (JObject [(lit "keywords", JArray [JNull])]) /\
  Analyze.parseAIResponse null_keyword_text =
  Throw (ErrorCat (lit "Failed to parse AI response: ")
           (Exn (TypeError_nullish (lit "word")))) /\
  Part000.parseAIResponse null_keyword_text =
  Throw (ErrorCat (lit "Failed to parse AI response: ")
           (Exn (TypeError_nullish (lit "word")))).
Proof. repeat split; vm_compute; reflexivity. Qed.

(** C2, as stated, fails: on [{"translation":5}] the normalizer returns a
    result whose translation is the number 5. *)
Lemma translation_not_always_string :
  Analyze.parseAIResponse number_translation_text =
  Ret number_translation_result /\
  Get number_translation_result (lit "translation") =
  Some (JNum (Num false 5 0)) /\
  ~ (forall text v, Analyze.parseAIResponse text = Ret v ->
       exists s, Get v (lit "translation") = Some (JString s)).
Proof.
  assert (H : Analyze.parseAIResponse number_translation_text =
              Ret number_translation_result) by (vm_compute; reflexivity).
  split; [exact H|]. split; [reflexivity|].
  intros A. destruct (A _ _ H) as [s Hs]. discriminate Hs.
Qed.

(** C2, amended. The translation of a result is never missing: it is
    [parsed.translation || ''], that is the empty string when the parsed
    translation is falsy and the parsed translation itself otherwise; it is
    a string whenever the parsed translation is a string. *)
Theorem translation_defaulted (text : str) (v : value) :
  Analyze.parseAIResponse text = Ret v ->
  exists candidate parsed,
    jsonMatch text = Some candidate /\
    JSON_parse candidate = Some (JObject parsed) /\
    Get v (lit "translation") =
    Some (or_else (own (lit "translation") parsed) empty) /\
    (truthy_opt (own (lit "translation") parsed) = false ->
     Get v (lit "translation") = Some (JString [])) /\
    (forall s, own (lit "translation") parsed = Some (JString s) ->
               Get v (lit "translation") = Some (JString s)).
Proof.
  intros H. destruct (parseAIResponse_ret _ _ H)
    as [candidate [parsed [H1 [H2 [_ ->]]]]].
  exists candidate, parsed. split; [exact H1|]. split; [exact H2|].
  assert (G : Get (JObject
                     (set (lit "keywords")
                        (JArray
                           (slice0 5
                              (List.map entry_of
                                 (elements (own (lit "keywords") parsed)))))
                        (with_defaults parsed)))
                (lit "translation") =
              Some (or_else (own (lit "translation") parsed) empty)).
  { cbn [Get]. rewrite own_set_other by exact translation_neq_keywords.
    apply own_with_defaults_translation. }
  split; [exact G|]. rewrite G. split.
  - unfold truthy_opt, or_else.
    destruct (own (lit "translation") parsed) as [t|]; [|reflexivity].
    now intros ->.
  - intros s ->. unfold or_else, truthy, empty. now destruct s.
Qed.

Lemma translation_defaulted_witness :
  Analyze.parseAIResponse hi_text = Ret hi_result /\
  exists candidate parsed,
    jsonMatch hi_text = Some candidate /\
    JSON_parse candidate = Some (JObject parsed) /\
    Get hi_result (lit "translation") =
    Some (or_else (own (lit "translation") parsed) empty) /\
    (truthy_opt (own (lit "translation") parsed) = false ->
     Get hi_result (lit "translation") = Some (JString [])) /\
    (forall s, own (lit "translation") parsed = Some (JString s) ->
               Get hi_result (lit "translation") = Some (JString s)).
Proof.
  split; [vm_compute; reflexivity|].
  apply (translation_defaulted hi_text hi_result). vm_compute. reflexivity.
Defined.

(** X3. The keywords of a result of [src/api/analyze.js]: the entries of the
    first five elements of the parsed [keywords], in order, each with the
    five fields. *)
Lemma keywords_first_five (text : str) (v : value) :
  Analyze.parseAIResponse text = Ret v ->
  exists candidate parsed,
    jsonMatch text = Some candidate /\
    JSON_parse candidate = Some (JObject parsed) /\
    Get v (lit "keywords") =
    Some (JArray
            (List.map entry_of
               (firstn 5 (elements (own (lit "keywords") parsed))))) /\
    List.length (firstn 5 (elements (own (lit "keywords") parsed))) <= 5.
Proof.
  intros H. destruct (parseAIResponse_ret _ _ H)
    as [candidate [parsed [H1 [H2 [_ ->]]]]].
  exists candidate, parsed. split; [exact H1|]. split; [exact H2|]. split.
  - cbn [Get]. rewrite own_set_same. unfold slice0. now rewrite firstn_map.
  - apply firstn_le_length.
Qed.

(** An entry has the five fields, each the field of the element or the
    empty string, and nothing else. *)
Lemma entry_of_fields (k : value) (name : str) :
  Get (entry_of k) name =
  if existsb (str_eqb name)
       [lit "word"; lit "phonetic"; lit "roots"; lit "origin"; lit "meaning"]
  then Some (or_else (Get k name) empty) else None.
Proof.
  unfold entry_of. cbn [Get own existsb].
  repeat match goal with
         | |- context [str_eqb name ?n] =>
             let E := fresh "E" in
             destruct (str_eqb name n) eqn:E;
             [apply str_eqb_eq in E; subst name; reflexivity|]
         end.
  reflexivity.
Qed.

(** X5. The result of [src/api/analyze.js] is the parsed object: its other
    top-level properties are kept as they were parsed. *)
Lemma other_properties_kept (text : str) (v : value) :
  Analyze.parseAIResponse text = Ret v ->
  exists candidate parsed,
    jsonMatch text = Some candidate /\
    JSON_parse candidate = Some (JObject parsed) /\
    forall name, name <> lit "translation" -> name <> lit "keywords" ->
                 Get v name = own name parsed.
Proof.
  intros H. destruct (parseAIResponse_ret _ _ H)
    as [candidate [parsed [H1 [H2 [_ ->]]]]].
  exists candidate, parsed. split; [exact H1|]. split; [exact H2|].
  intros name Ht Hk. cbn [Get].
  rewrite own_set_other by assumption.
  now apply own_with_defaults_other.
Qed.

(** C5. In the older copy a keyword entry has four fields: on
    [{"keywords":[{"word":"run","phonetic":"r"}]}] the entry returned has
    no [phonetic]. *)
Theorem part000_entry_has_four_fields :
  Part000.parseAIResponse phonetic_text =
  Ret (JObject
         [(lit "keywords", JArray [entry_of_four phonetic_element]);
          (lit "translation", empty)]) /\
  Get (entry_of_four phonetic_element) (lit "phonetic") = None /\
  Analyze.parseAIResponse phonetic_text =
  Ret (JObject
         [(lit "keywords", JArray [entry_of phonetic_element]);
          (lit "translation", empty)]) /\
  Get (entry_of phonetic_element) (lit "phonetic") =
  Some (JString (lit "r")).
Proof. repeat split; vm_compute; reflexivity. Qed.

(** C10. In the older copy the entries are rebuilt with four fields, so
    [phonetic] is dropped along with the properties that are not canonical;
    the top-level property [note] is kept. *)
Theorem part000_drops_phonetic :
  Part000.parseAIResponse note_text =
  Ret (JObject
         [(lit "note", JString (lit "n"));
          (lit "keywords",
           JArray
             [JObject
                [(lit "word", JString (lit "run"));
                 (lit "roots", empty);
                 (lit "origin", empty);
                 (lit "meaning", empty)]]);
          (lit "translation", empty)]) /\
  Analyze.parseAIResponse note_text =
  Ret (JObject
         [(lit "note", JString (lit "n"));
          (lit "keywords",
           JArray
             [JObject
                [(lit "word", JString (lit "run"));
                 (lit "phonetic", JString (lit "r"));
                 (lit "roots", empty);
                 (lit "origin", empty);
                 (lit "meaning", empty)]]);
          (lit "translation", empty)]).
Proof. split; vm_compute; reflexivity. Qed.

(** * The dispatcher and the adapters *)

Lemma handler_post (body : jsval) :
  Analyze.handler (HttpRequest (lit "POST") body) =
  try_catch (Analyze.dispatch body) (fun error => Ret (Failure 500 error)).
Proof. reflexivity. Qed.

Lemma destructure_not_null (b : value) :
  b <> JNull ->
  destructure (Some b) =
  Ret (Get b (lit "provider"), Get b (lit "model"),
       Get b (lit "apiKey"), Get b (lit "prompt")).
Proof. destruct b; intros H; [contradiction|..]; reflexivity. Qed.

(** A POST without a body does not reach the validation: destructuring
    [undefined] or [null] throws, and the request is answered 500. *)
Lemma no_body_is_a_failure (net : request -> fetch_outcome) :
  run net (Analyze.handler (HttpRequest (lit "POST") None)) =
  (inl (Failure 500 (Exn (TypeError_nullish (lit "provider")))), []) /\
  run net (Analyze.handler (HttpRequest (lit "POST") (Some JNull))) =
  (inl (Failure 500 (Exn (TypeError_nullish (lit "provider")))), []).
Proof. split; reflexivity. Qed.

(** C6. A request whose [apiKey] or [prompt] is missing or empty is answered
    with status 400 and the message of the missing field, whatever its
    provider, and no outbound request is issued. *)
Theorem validation_first (net : request -> fetch_outcome) (b : value) :
  b <> JNull ->
  truthy_opt (Get b (lit "apiKey")) = false \/
  truthy_opt (Get b (lit "prompt")) = false ->
  run net (Analyze.handler (HttpRequest (lit "POST") (Some b))) =
  (inl (Message 400
          (Text (if truthy_opt (Get b (lit "apiKey"))
                 then lit "Prompt is required"
                 else lit "API key is required"))),
   []).
Proof.
  intros Hb H. rewrite handler_post. unfold Analyze.dispatch.
  rewrite destructure_not_null by assumption. cbn [bind].
  destruct (truthy_opt (Get b (lit "apiKey"))); cbn [negb].
  - destruct H as [H|H]; [discriminate|]. rewrite H. reflexivity.
  - reflexivity.
Qed.

Lemma validation_first_witness :
  empty_key_body <> JNull /\
  (truthy_opt (Get empty_key_body (lit "apiKey")) = false \/
   truthy_opt (Get empty_key_body (lit "prompt")) = false) /\
  run offline (Analyze.handler (HttpRequest (lit "POST") (Some empty_key_body))) =
  (inl (Message 400
          (Text (if truthy_opt (Get empty_key_body (lit "apiKey"))
                 then lit "Prompt is required"
                 else lit "API key is required"))),
   []).
Proof.
  split; [discriminate|]. split; [left; reflexivity|].
  apply (validation_first offline empty_key_body);
    [discriminate | left; reflexivity].
Defined.

(** X12. The dispatcher of [src/api/analyze.js] names the provider it does not
    know and issues no outbound request. *)
Lemma unknown_provider_named (net : request -> fetch_outcome) (b : value)
  (providerId : str) :
  b <> JNull ->
  truthy_opt (Get b (lit "apiKey")) = true ->
  truthy_opt (Get b (lit "prompt")) = true ->
  Get b (lit "provider") = Some (JString providerId) ->
  ~ In providerId [lit "gemini"; lit "deepseek"; lit "openrouter"] ->
  run net (Analyze.handler (HttpRequest (lit "POST") (Some b))) =
  (inl (Message 400 (Text (lit "Unknown provider: " ++ providerId))), []).
Proof.
  intros Hb Hk Hp Hv Hn. rewrite handler_post. unfold Analyze.dispatch.
  rewrite destructure_not_null by assumption. cbn [bind].
  rewrite Hk, Hp, Hv. cbn [negb is_string].
  assert (E : forall n, In n [lit "gemini"; lit "deepseek"; lit "openrouter"]
                        -> str_eqb providerId n = false).
  { intros n Hin. apply str_eqb_neq. intros ->. now apply Hn. }
  rewrite !E by (simpl; tauto). reflexivity.
Qed.

(** X13. The dispatcher of the older copy knows two providers and answers any
    other with the same message. *)
Lemma part000_unknown_provider (net : request -> fetch_outcome) (b : value)
  (providerId : str) :
  b <> JNull ->
  truthy_opt (Get b (lit "apiKey")) = true ->
  truthy_opt (Get b (lit "prompt")) = true ->
  Get b (lit "provider") = Some (JString providerId) ->
  ~ In providerId [lit "gemini"; lit "deepseek"] ->
  run net (Part000.handler (HttpRequest (lit "POST") (Some b))) =
  (inl (Message 400 (Text (lit "Unknown provider"))), []).
Proof.
  intros Hb Hk Hp Hv Hn.
  change (Part000.handler (HttpRequest (lit "POST") (Some b)))
    with (try_catch (Part000.dispatch (Some b))
            (fun error => Ret (Failure 500 error))).
  unfold Part000.dispatch.
  rewrite destructure_not_null by assumption. cbn [bind].
  rewrite Hk, Hp, Hv. cbn [negb is_string].
  assert (E : forall n, In n [lit "gemini"; lit "deepseek"]
                        -> str_eqb providerId n = false).
  { intros n Hin. apply str_eqb_neq. intros ->. now apply Hn. }
  rewrite !E by (simpl; tauto). reflexivity.
Qed.

(** C3. The older copy answers an unknown provider with the bare message
    [Unknown provider]: the identifier is not in it. The dispatcher of
    [src/api/analyze.js] answers the same request with
    [Unknown provider: foo]. Neither issues an outbound request. *)
Theorem part000_unknown_provider_unnamed (net : request -> fetch_outcome) :
  run net (Part000.handler (HttpRequest (lit "POST") unknown_provider_body)) =
  (inl (Message 400 (Text (lit "Unknown provider"))), []) /\
  run net (Analyze.handler (HttpRequest (lit "POST") unknown_provider_body)) =
  (inl (Message 400 (Text (lit "Unknown provider: foo"))), []).
Proof. split; vm_compute; reflexivity. Qed.


(** C4. An unsuccessful response whose body is not JSON: [callGemini] and
    [callDeepSeek] fail with the SyntaxError of [response.json()], not with
    their fallback message; [callOpenRouter], which catches it, fails with
    its status message. *)
Theorem unparsable_error_body (apiKey model prompt : jsval) :
  JSON_parse (lit "<html>") = None /\
  run (always 500 (lit "<html>")) (Analyze.callGemini apiKey model prompt) =
  (inr (Exn SyntaxError_JSON), [Request GenerateContent apiKey model prompt]) /\
  run (always 500 (lit "<html>")) (Analyze.callDeepSeek apiKey model prompt) =
  (inr (Exn SyntaxError_JSON), [Request DeepSeekChat apiKey model prompt]) /\
  run (always 500 (lit "<html>")) (Analyze.callOpenRouter apiKey model prompt) =
  (inr (Error (JString (lit "OpenRouter error 500"))),
   [Request OpenRouterChat apiKey model prompt]).
Proof. repeat split; vm_compute; reflexivity. Qed.


(** C8. A successful response whose body is [null] parses and holds no
    text, and every adapter fails with the TypeError of reading a property
    of [null], not with [No response from] the provider. *)
Theorem null_envelope_type_error (apiKey model prompt : jsval) :
  JSON_parse (lit "null") = Some JNull /\
  run (always 200 (lit "null")) (Analyze.callGemini apiKey model prompt) =
  (inr (Exn (TypeError_nullish (lit "candidates"))),
   [Request GenerateContent apiKey model prompt]) /\
  run (always 200 (lit "null")) (Analyze.callDeepSeek apiKey model prompt) =
  (inr (Exn (TypeError_nullish (lit "choices"))),
   [Request DeepSeekChat apiKey model prompt]) /\
  run (always 200 (lit "null")) (Analyze.callOpenRouter apiKey model prompt) =
  (inr (Exn (TypeError_nullish (lit "choices"))),
   [Request OpenRouterChat apiKey model prompt]).
Proof. repeat split; vm_compute; reflexivity. Qed.

(** * Computations and their requests *)

Lemma run_fetch_free {A : Type} (net : request -> fetch_outcome)
  (p : prog A) :
  fetch_free p -> snd (run net p) = [].
Proof. destruct p; simpl; [reflexivity | reflexivity | contradiction]. Qed.

Lemma fetch_free_bind {A B : Type} (p : prog A) (f : A -> prog B) :
  fetch_free p -> (forall a, fetch_free (f a)) -> fetch_free (bind p f).
Proof. destruct p; simpl; auto. Qed.

Lemma fetch_free_try_catch {A : Type} (p : prog A) (h : thrown -> prog A) :
  fetch_free p -> (forall e, fetch_free (h e)) -> fetch_free (try_catch p h).
Proof. destruct p; simpl; auto. Qed.

Lemma fetch_free_member (v : value) (k : str) : fetch_free (member v k).
Proof. now destruct v. Qed.

Lemma fetch_free_response_json (body : str) : fetch_free (response_json body).
Proof. unfold response_json. now destruct (JSON_parse body). Qed.

Lemma fetch_free_parseAIResponse (text : str) :
  fetch_free (Analyze.parseAIResponse text).
Proof.
  unfold Analyze.parseAIResponse, Analyze.parse_candidate.
  destruct (jsonMatch text) as [c|]; [|exact I].
  destruct (JSON_parse c) as [[| | | | |parsed]|]; try exact I.
  rewrite coerce_spec.
  now destruct (existsb is_null (elements (own (lit "keywords") parsed))).
Qed.

Lemma fetch_free_on_text (v : value) :
  fetch_free (on_text Analyze.parseAIResponse v).
Proof. destruct v; try exact I. apply fetch_free_parseAIResponse. Qed.

(** The law of [bind]: the requests of the first computation, then those of
    the second. *)
Lemma run_bind {A B : Type} (net : request -> fetch_outcome) (p : prog A)
  (f : A -> prog B) :
  run net (bind p f) =
  match run net p with
  | (inl a, log) => let (r, log') := run net (f a) in (r, log ++ log')
  | (inr e, log) => (inr e, log)
  end.
Proof.
  induction p as [a|e|rq k IH]; cbn [bind run].
  - now destruct (run net (f a)).
  - reflexivity.
  - rewrite IH. destruct (run net (k (net rq))) as [[a|e] log]; [|reflexivity].
    now destruct (run net (f a)).
Qed.

(** The law of [try ... catch]. *)
Lemma run_try_catch {A : Type} (net : request -> fetch_outcome) (p : prog A)
  (h : thrown -> prog A) :
  run net (try_catch p h) =
  match run net p with
  | (inl a, log) => (inl a, log)
  | (inr e, log) => let (r, log') := run net (h e) in (r, log ++ log')
  end.
Proof.
  induction p as [a|e|rq k IH]; cbn [try_catch run].
  - reflexivity.
  - now destruct (run net (h e)).
  - rewrite IH. destruct (run net (k (net rq))) as [[a|e] log]; [reflexivity|].
    now destruct (run net (h e)).
Qed.

Ltac free :=
  repeat first
    [ exact I
    | apply fetch_free_member
    | apply fetch_free_response_json
    | apply fetch_free_on_text
    | apply fetch_free_parseAIResponse
    | apply fetch_free_bind; [|intro]
    | apply fetch_free_try_catch; [|intro]
    | match goal with
      | |- fetch_free (if ?b then _ else _) => destruct b
      | |- fetch_free (match ?x with _ => _ end) => destruct x
      end ].

Lemma callGemini_run (net : request -> fetch_outcome)
  (apiKey model prompt : jsval) :
  snd (run net (Analyze.callGemini apiKey model prompt)) =
  [Request GenerateContent apiKey model prompt].
Proof.
  unfold Analyze.callGemini. cbn [run].
  match goal with
  | |- context [run net ?p] =>
      pose proof (run_fetch_free net p) as H; destruct (run net p) as [r log]
  end.
  cbn [snd] in *. rewrite H; [reflexivity|].
  destruct (net (Request GenerateContent apiKey model prompt)); free.
Qed.

Lemma callDeepSeek_run (net : request -> fetch_outcome)
  (apiKey model prompt : jsval) :
  snd (run net (Analyze.callDeepSeek apiKey model prompt)) =
  [Request DeepSeekChat apiKey model prompt].
Proof.
  unfold Analyze.callDeepSeek. cbn [run].
  match goal with
  | |- context [run net ?p] =>
      pose proof (run_fetch_free net p) as H; destruct (run net p) as [r log]
  end.
  cbn [snd] in *. rewrite H; [reflexivity|].
  destruct (net (Request DeepSeekChat apiKey model prompt)); free.
Qed.

Lemma callOpenRouter_run (net : request -> fetch_outcome)
  (apiKey model prompt : jsval) :
  snd (run net (Analyze.callOpenRouter apiKey model prompt)) =
  [Request OpenRouterChat apiKey model prompt].
Proof.
  unfold Analyze.callOpenRouter. cbn [run].
  match goal with
  | |- context [run net ?p] =>
      pose proof (run_fetch_free net p) as H; destruct (run net p) as [r log]
  end.
  cbn [snd] in *. rewrite H; [reflexivity|].
  destruct (net (Request OpenRouterChat apiKey model prompt)); free.
Qed.

(** * The handler *)

(** What the try block of the handler comes to: the TypeError of a missing
    body, a message with status 400, or the outcome of one adapter that
    issued one request. *)
Lemma dispatch_cases (net : request -> fetch_outcome) (body : jsval) :
  run net (Analyze.dispatch body) =
  (inr (Exn (TypeError_nullish (lit "provider"))), []) \/
  (exists m, run net (Analyze.dispatch body) = (inl (Message 400 m), [])) \/
  (exists (p : prog value) rq,
     snd (run net p) = [rq] /\
     run net (Analyze.dispatch body) =
     (match fst (run net p) with
      | inl v => inl (Result 200 v)
      | inr e => inr e
      end, [rq])).
Proof.
  unfold Analyze.dispatch.
  destruct body as [b|]; [|now left].
  destruct (is_null b) eqn:Hb; [destruct b; try discriminate; now left|].
  rewrite destructure_not_null by (intros ->; discriminate). cbn [bind].
  destruct (truthy_opt (Get b (lit "apiKey"))); cbn [negb];
    [|right; left; now eexists].
  destruct (truthy_opt (Get b (lit "prompt"))); cbn [negb];
    [|right; left; now eexists].
  repeat match goal with
         | |- context [if is_string ?v ?n then _ else _] =>
             destruct (is_string v n)
         end;
    try (right; left; now eexists);
    right; right;
    match goal with
    | |- context [bind ?p _] => exists p
    end;
    eexists; (split; [first [apply callGemini_run | apply callDeepSeek_run
                            | apply callOpenRouter_run]|]);
    rewrite run_bind;
    match goal with
    | |- context [run net ?p] =>
        first [pose proof (callGemini_run net _ _ _ : snd (run net p) = _) as E
              | pose proof (callDeepSeek_run net _ _ _ : snd (run net p) = _) as E
              | pose proof (callOpenRouter_run net _ _ _ : snd (run net p) = _) as E];
        destruct (run net p) as [[v|e] log]
    end;
    cbn [fst snd run] in *; subst log; reflexivity.
Qed.

Lemma handler_cases (net : request -> fetch_outcome) (req : http_request) :
  exists r log,
    run net (Analyze.handler req) = (inl r, log) /\
    In (status_of r) [200; 400; 405; 500]%N /\ List.length log <= 1.
Proof.
  unfold Analyze.handler.
  destruct (str_eqb (method req) (lit "OPTIONS"));
    [exists (End 200), []; cbn; intuition lia|].
  destruct (negb (str_eqb (method req) (lit "POST")));
    [eexists (Message 405 _), []; cbn; intuition lia|].
  rewrite run_try_catch.
  destruct (dispatch_cases net (body req)) as [E|[[m E]|[p [rq [Hp E]]]]];
    rewrite E.
  - eexists (Failure 500 _), []. cbn. intuition lia.
  - exists (Message 400 m), []. cbn. intuition lia.
  - destruct (fst (run net p)) as [v|e].
    + exists (Result 200 v), [rq]. cbn. intuition lia.
    + eexists (Failure 500 e), [rq]. cbn. intuition lia.
Qed.

(** X9. The handler never throws: whatever the request and whatever the
    network answers, it sends a reply, and the status of the reply is 200,
    400, 405 or 500. *)
Theorem handler_always_replies (net : request -> fetch_outcome)
  (req : http_request) :
  exists r, fst (run net (Analyze.handler req)) = inl r /\
            In (status_of r) [200; 400; 405; 500]%N.
Proof.
  destruct (handler_cases net req) as [r [log [E [H _]]]].
  exists r. now rewrite E.
Qed.

(** X10. A call of the handler issues at most one outbound request: there
    is no retry and no second provider. *)
Theorem handler_at_most_one_request (net : request -> fetch_outcome)
  (req : http_request) :
  List.length (snd (run net (Analyze.handler req))) <= 1.
Proof.
  destruct (handler_cases net req) as [r [log [E [_ H]]]]. now rewrite E.
Qed.

Lemma handler_wraps (net : request -> fetch_outcome) (p : prog value) :
  run net (try_catch (result <- p ;; Ret (Result 200 result))
             (fun error => Ret (Failure 500 error))) =
  (inl (reply_of (fst (run net p))), snd (run net p)).
Proof.
  rewrite run_try_catch, run_bind.
  destruct (run net p) as [[v|e] log]; cbn [fst snd run reply_of];
    now rewrite app_nil_r.
Qed.

(** X11. A request with a key and a prompt is handed to the adapter that
    its provider names, with the key, the model and the prompt of the body:
    the handler issues the requests of that call and no other, and replies
    with the result of the call and status 200 when it returns, with its
    failure and status 500 when it throws. *)
Theorem handler_delegates (net : request -> fetch_outcome) (b : value) :
  b <> JNull ->
  truthy_opt (Get b (lit "apiKey")) = true ->
  truthy_opt (Get b (lit "prompt")) = true ->
  forall (name : str) (call : jsval -> jsval -> jsval -> prog value),
    In (name, call)
      [(lit "gemini", Analyze.callGemini);
       (lit "deepseek", Analyze.callDeepSeek);
       (lit "openrouter", Analyze.callOpenRouter)] ->
    Get b (lit "provider") = Some (JString name) ->
    let outcome :=
      run net (call (Get b (lit "apiKey")) (Get b (lit "model"))
                 (Get b (lit "prompt"))) in
    run net (Analyze.handler (HttpRequest (lit "POST") (Some b))) =
    (inl (reply_of (fst outcome)), snd outcome).
Proof.
  intros Hb Hk Hp name call Hin Hn. rewrite handler_post.
  unfold Analyze.dispatch.
  rewrite destructure_not_null by assumption. cbn [bind].
  rewrite Hk, Hp, Hn. cbn [negb is_string].
  destruct Hin as [E|[E|[E|[]]]]; injection E as <- <-;
    match goal with
    | |- context [str_eqb ?a (lit "gemini")] =>
        let x := eval vm_compute in (str_eqb a (lit "gemini")) in
        change (str_eqb a (lit "gemini")) with x
    end; cbv iota.
  - apply handler_wraps.
  - change (str_eqb (lit "deepseek") (lit "deepseek")) with true. cbv iota.
    apply handler_wraps.
  - change (str_eqb (lit "openrouter") (lit "deepseek")) with false.
    change (str_eqb (lit "openrouter") (lit "openrouter")) with true.
    cbv iota. apply handler_wraps.
Qed.

Lemma handler_delegates_witness :
  gemini_request_body <> JNull /\
  truthy_opt (Get gemini_request_body (lit "apiKey")) = true /\
  truthy_opt (Get gemini_request_body (lit "prompt")) = true /\
  Get gemini_request_body (lit "provider") = Some (JString (lit "gemini")) /\
  run offline
    (Analyze.handler (HttpRequest (lit "POST") (Some gemini_request_body))) =
  (inl (reply_of
          (fst (run offline
                  (Analyze.callGemini (Get gemini_request_body (lit "apiKey"))
                     (Get gemini_request_body (lit "model"))
                     (Get gemini_request_body (lit "prompt")))))),
   snd (run offline
          (Analyze.callGemini (Get gemini_request_body (lit "apiKey"))
             (Get gemini_request_body (lit "model"))
             (Get gemini_request_body (lit "prompt"))))).
Proof.
  split; [discriminate|]. split; [reflexivity|]. split; [reflexivity|].
  split; [reflexivity|].
  apply (handler_delegates offline gemini_request_body)
    with (name := lit "gemini");
    [discriminate | reflexivity | reflexivity | now left | reflexivity].
Defined.

(** * The adapters *)











(** * The normalizer, beyond the claims *)

(** X1. Whatever surrounds the JSON object is ignored: text without braces
    before and after the input changes nothing to what the normalizer
    returns or throws, in either copy. *)
Theorem parseAIResponse_ignores_surroundings (pre t suf : str) :
  Forall not_brace pre -> Forall not_brace suf ->
  Analyze.parseAIResponse (pre ++ t ++ suf) = Analyze.parseAIResponse t /\
  Part000.parseAIResponse (pre ++ t ++ suf) = Part000.parseAIResponse t.
Proof.
  intros Hp Hs.
  unfold Analyze.parseAIResponse, Part000.parseAIResponse.
  rewrite !jsonMatch_brace_span.
  rewrite brace_span_app_l, brace_span_app_r by assumption. now split.
Qed.

Lemma prose_has_no_brace :
  Forall not_brace prose_before /\ Forall not_brace prose_after.
Proof.
  split; unfold prose_before, prose_after; vm_compute (lit _);
    repeat (apply Forall_cons; [split; discriminate|]); apply Forall_nil.
Defined.

Lemma parseAIResponse_ignores_surroundings_witness :
  Forall not_brace prose_before /\ Forall not_brace prose_after /\
  Analyze.parseAIResponse (prose_before ++ hi_text ++ prose_after) =
  Analyze.parseAIResponse hi_text.
Proof.
  split; [apply prose_has_no_brace|]. split; [apply prose_has_no_brace|].
  apply (parseAIResponse_ignores_surroundings prose_before hi_text prose_after);
    apply prose_has_no_brace.
Defined.

(** X2. The four outcomes of the normalizer, and no other: no span between
    braces; a span that is not JSON; a [null] among the keywords; or the
    parsed object with its defaults and the entries of its first five
    keywords. *)
Theorem parseAIResponse_outcomes (text : str) :
  (brace_span text = None /\
   Analyze.parseAIResponse text =
   Throw (Error (JString (lit "Could not parse AI response as JSON")))) \/
  (exists candidate,
     brace_span text = Some candidate /\ JSON_parse candidate = None /\
     Analyze.parseAIResponse text =
     Throw (ErrorCat (lit "Failed to parse AI response: ")
              (Exn SyntaxError_JSON))) \/
  (exists candidate parsed,
     brace_span text = Some candidate /\
     JSON_parse candidate = Some (JObject parsed) /\
     existsb is_null (elements (own (lit "keywords") parsed)) = true /\
     Analyze.parseAIResponse text =
     Throw (ErrorCat (lit "Failed to parse AI response: ")
              (Exn (TypeError_nullish (lit "word"))))) \/
  (exists candidate parsed,
     brace_span text = Some candidate /\
     JSON_parse candidate = Some (JObject parsed) /\
     existsb is_null (elements (own (lit "keywords") parsed)) = false /\
     Analyze.parseAIResponse text =
     Ret (JObject
            (set (lit "keywords")
               (JArray
                  (slice0 5
                     (List.map entry_of
                        (elements (own (lit "keywords") parsed)))))
               (with_defaults parsed)))).
Proof.
  unfold Analyze.parseAIResponse, Analyze.parse_candidate.
  rewrite jsonMatch_brace_span.
  destruct (brace_span text) as [candidate|] eqn:Hc; [|now left].
  right. destruct (brace_span_head _ _ Hc) as [x ->].
  destruct (JSON_parse (LBRACE :: x)) as [v|] eqn:Hp;
    [|left; now exists (LBRACE :: x)].
  right. destruct (JSON_parse_brace_object _ _ Hp) as [parsed ->].
  rewrite coerce_spec.
  destruct (existsb is_null (elements (own (lit "keywords") parsed))) eqn:E;
    [left | right]; now exists (LBRACE :: x), parsed.
Qed.

Lemma keywords_first_five_witness :
  Analyze.parseAIResponse eight_keywords_text = Ret eight_keywords_result /\
  exists candidate parsed,
    jsonMatch eight_keywords_text = Some candidate /\
    JSON_parse candidate = Some (JObject parsed) /\
    Get eight_keywords_result (lit "keywords") =
    Some (JArray
            (List.map entry_of
               (firstn 5 (elements (own (lit "keywords") parsed))))) /\
    List.length (firstn 5 (elements (own (lit "keywords") parsed))) <= 5.
Proof.
  split; [vm_compute; reflexivity|].
  apply (keywords_first_five eight_keywords_text eight_keywords_result).
  vm_compute. reflexivity.
Defined.

Lemma other_properties_kept_witness :
  Analyze.parseAIResponse eight_keywords_text = Ret eight_keywords_result /\
  exists candidate parsed,
    jsonMatch eight_keywords_text = Some candidate /\
    JSON_parse candidate = Some (JObject parsed) /\
    forall name, name <> lit "translation" -> name <> lit "keywords" ->
                 Get eight_keywords_result name = own name parsed.
Proof.
  split; [vm_compute; reflexivity|].
  apply (other_properties_kept eight_keywords_text eight_keywords_result).
  vm_compute. reflexivity.
Defined.

Lemma or_else_cases (a : jsval) :
  truthy (or_else a empty) = true \/ or_else a empty = empty.
Proof.
  unfold or_else. destruct a as [v|]; [|now right].
  destruct (truthy v) eqn:E; [now left | now right].
Qed.

Lemma or_else_idem (a : jsval) :
  or_else (Some (or_else a empty)) empty = or_else a empty.
Proof.
  destruct (or_else_cases a) as [H|H]; unfold or_else at 1.
  - now rewrite H.
  - rewrite H. reflexivity.
Qed.

Lemma in_firstn {A : Type} (n : nat) (l : list A) (x : A) :
  In x (firstn n l) -> In x l.
Proof.
  revert l. induction n as [|n IH]; intros [|y l] H; simpl in *; try tauto.
  destruct H as [H|H]; [now left | right; now apply IH].
Qed.

(** X4. Every keyword entry of a result is an object of exactly the five
    fields word, phonetic, roots, origin and meaning, in this order, and
    each field is truthy or the empty string. *)
Theorem entries_have_five_fields (text : str) (v : value)
  (entries : list value) (e : value) :
  Analyze.parseAIResponse text = Ret v ->
  Get v (lit "keywords") = Some (JArray entries) -> In e entries ->
  exists w p r o m,
    e = JObject [(lit "word", w); (lit "phonetic", p); (lit "roots", r);
                 (lit "origin", o); (lit "meaning", m)] /\
    Forall (fun x => truthy x = true \/ x = empty) [w; p; r; o; m].
Proof.
  intros H G Hin. destruct (parseAIResponse_ret _ _ H)
    as [candidate [parsed [_ [_ [_ ->]]]]].
  cbn [Get] in G. rewrite own_set_same in G.
  apply (f_equal elements) in G. cbn [elements] in G. subst entries.
  unfold slice0 in Hin. apply in_firstn, in_map_iff in Hin.
  destruct Hin as [k [<- _]]. unfold entry_of. do 5 eexists.
  split; [reflexivity|].
  repeat (apply Forall_cons; [apply or_else_cases|]). apply Forall_nil.
Qed.

Lemma entries_have_five_fields_witness :
  Analyze.parseAIResponse eight_keywords_text = Ret eight_keywords_result /\
  Get eight_keywords_result (lit "keywords") =
  Some (JArray (elements (Get eight_keywords_result (lit "keywords")))) /\
  In first_entry (elements (Get eight_keywords_result (lit "keywords"))) /\
  exists w p r o m,
    first_entry =
    JObject [(lit "word", w); (lit "phonetic", p); (lit "roots", r);
             (lit "origin", o); (lit "meaning", m)] /\
    Forall (fun x => truthy x = true \/ x = empty) [w; p; r; o; m].
Proof.
  split; [vm_compute; reflexivity|]. split; [vm_compute; reflexivity|].
  split; [now left|].
  apply (entries_have_five_fields eight_keywords_text eight_keywords_result
           (elements (Get eight_keywords_result (lit "keywords"))) first_entry);
    [vm_compute; reflexivity | vm_compute; reflexivity | now left].
Defined.

Lemma set_own_same (k : str) (v : value) (m : object) :
  own k m = Some v -> set k v m = m.
Proof.
  induction m as [|[k' v'] m IH]; simpl; [discriminate|].
  destruct (str_eqb k k') eqn:E.
  - now intros [= ->].
  - intros H. now rewrite IH.
Qed.

Lemma entry_of_idem (k : value) : entry_of (entry_of k) = entry_of k.
Proof.
  unfold entry_of at 1.
  rewrite !entry_of_fields.
  cbv [existsb].
  repeat match goal with
         | |- context [str_eqb ?a ?b] =>
             let x := eval vm_compute in (str_eqb a b) in
             change (str_eqb a b) with x
         end.
  cbv [orb]. cbv iota.
  unfold entry_of. now rewrite !or_else_idem.
Qed.

Lemma no_null_entries (l : list value) :
  existsb is_null (List.map entry_of l) = false.
Proof. induction l as [|k l IH]; [reflexivity | exact IH]. Qed.

(** X6. The coercion is idempotent: applied to the object it returned, it
    returns that object again. *)
Theorem coerce_idempotent (parsed m : object) :
  Analyze.coerce parsed = Ret (JObject m) ->
  Analyze.coerce m = Ret (JObject m).
Proof.
  rewrite coerce_spec.
  destruct (existsb is_null (elements (own (lit "keywords") parsed)));
    [discriminate|].
  intros H.
  set (K := slice0 5 (List.map entry_of (elements (own (lit "keywords") parsed))))
    in *.
  set (d := with_defaults parsed) in *.
  assert (Hm : m = set (lit "keywords") (JArray K) d) by congruence.
  subst m. clear H.
  assert (HK : exists l, K = List.map entry_of l).
  { exists (firstn 5 (elements (own (lit "keywords") parsed))).
    subst K. unfold slice0. apply firstn_map. }
  destruct HK as [l HK].
  assert (Hlen : List.length K <= 5).
  { subst K. unfold slice0. apply firstn_le_length. }
  rewrite coerce_spec, own_set_same. cbn [elements].
  rewrite HK at 1. rewrite no_null_entries.
  assert (E1 : slice0 5 (List.map entry_of K) = K).
  { unfold slice0. rewrite HK, List.map_map.
    rewrite (List.map_ext _ entry_of) by (intros; apply entry_of_idem).
    rewrite <- HK. now apply firstn_all2. }
  rewrite E1.
  assert (E2 : with_defaults (set (lit "keywords") (JArray K) d) =
               set (lit "keywords") (JArray K) d).
  { unfold with_defaults at 1.
    assert (T : own (lit "translation") (set (lit "keywords") (JArray K) d) =
                Some (or_else (own (lit "translation") parsed) empty)).
    { rewrite own_set_other by exact translation_neq_keywords.
      apply own_with_defaults_translation. }
    rewrite T. cbn [truthy_opt].
    destruct (or_else_cases (own (lit "translation") parsed)) as [H|H].
    - rewrite H. cbn [negb]. rewrite own_set_same. reflexivity.
    - rewrite H in *. cbn [truthy empty negb].
      rewrite (set_own_same _ _ _ T), own_set_same. reflexivity. }
  rewrite E2, set_set. reflexivity.
Qed.

Lemma coerce_idempotent_witness :
  Analyze.coerce missing_fields_object = Ret (JObject missing_fields_coerced) /\
  Analyze.coerce missing_fields_coerced = Ret (JObject missing_fields_coerced).
Proof.
  split; [vm_compute; reflexivity|].
  apply (coerce_idempotent missing_fields_object missing_fields_coerced).
  vm_compute. reflexivity.
Defined.

(** * The older copy *)

Lemma part000_parseAIResponse_ret (text : str) (v : value) :
  Part000.parseAIResponse text = Ret v ->
  exists candidate parsed,
    jsonMatch text = Some candidate /\
    JSON_parse candidate = Some (JObject parsed) /\
    existsb is_null (elements (own (lit "keywords") parsed)) = false /\
    v = JObject
          (set (lit "keywords")
             (JArray
                (slice0 5
                   (List.map entry_of_four
                      (elements (own (lit "keywords") parsed)))))
             (with_defaults parsed)).
Proof.
  unfold Part000.parseAIResponse, Part000.parse_candidate.
  destruct (jsonMatch text) as [candidate|] eqn:Hm; [|discriminate].
  intros H. apply try_catch_throw_ret in H.
  destruct (JSON_parse candidate) as [[| | | | |parsed]|] eqn:Hp;
    try discriminate.
  rewrite coerce_four_spec in H.
  destruct (existsb is_null (elements (own (lit "keywords") parsed))) eqn:E;
    [discriminate|].
  injection H as <-. now exists candidate, parsed.
Qed.

(** X7. In the older copy a result holds at most five keyword entries,
    those of the first five parsed keywords in order, and each is an object
    of exactly the four fields word, roots, origin and meaning. *)
Theorem part000_keywords_first_five (text : str) (v : value) :
  Part000.parseAIResponse text = Ret v ->
  exists candidate parsed,
    jsonMatch text = Some candidate /\
    JSON_parse candidate = Some (JObject parsed) /\
    Get v (lit "keywords") =
    Some (JArray
            (List.map entry_of_four
               (firstn 5 (elements (own (lit "keywords") parsed))))) /\
    List.length (firstn 5 (elements (own (lit "keywords") parsed))) <= 5.
Proof.
  intros H. destruct (part000_parseAIResponse_ret _ _ H)
    as [candidate [parsed [H1 [H2 [_ ->]]]]].
  exists candidate, parsed. split; [exact H1|]. split; [exact H2|]. split.
  - cbn [Get]. rewrite own_set_same. unfold slice0. now rewrite firstn_map.
  - apply firstn_le_length.
Qed.

Lemma part000_keywords_first_five_witness :
  Part000.parseAIResponse eight_keywords_text = Ret eight_keywords_result_four /\
  exists candidate parsed,
    jsonMatch eight_keywords_text = Some candidate /\
    JSON_parse candidate = Some (JObject parsed) /\
    Get eight_keywords_result_four (lit "keywords") =
    Some (JArray
            (List.map entry_of_four
               (firstn 5 (elements (own (lit "keywords") parsed))))) /\
    List.length (firstn 5 (elements (own (lit "keywords") parsed))) <= 5.
Proof.
  split; [vm_compute; reflexivity|].
  apply (part000_keywords_first_five eight_keywords_text
           eight_keywords_result_four).
  vm_compute. reflexivity.
Defined.

Lemma entries_differ_in_phonetic (l : list value) :
  Forall2
    (fun e e' =>
       Get e' (lit "phonetic") = None /\
       forall name, name <> lit "phonetic" -> Get e name = Get e' name)
    (List.map entry_of l) (List.map entry_of_four l).
Proof.
  induction l as [|k l IH]; [constructor|].
  cbn [List.map]. constructor; [|exact IH].
  split; [reflexivity|]. intros name Hn.
  unfold entry_of, entry_of_four. cbn [Get own].
  apply str_eqb_neq in Hn. rewrite Hn. reflexivity.
Qed.

Lemma Forall2_firstn {A B : Type} (R : A -> B -> Prop) (n : nat) :
  forall l l', Forall2 R l l' -> Forall2 R (firstn n l) (firstn n l').
Proof.
  induction n as [|n IH]; intros l l' H; [constructor|].
  destruct H; cbn [firstn]; constructor; auto.
Qed.

(** X8. The two copies of the normalizer differ in the field [phonetic]
    and in nothing else: on every text they throw the same error or both
    return; the results have the same properties apart from [keywords], and
    their keyword entries correspond one to one, the entry of the older
    copy lacking [phonetic] and agreeing on every other field. *)
Theorem copies_differ_in_phonetic_only (text : str) :
  match Analyze.parseAIResponse text, Part000.parseAIResponse text with
  | Throw e, Throw e' => e = e'
  | Ret v, Ret v' =>
      (forall name, name <> lit "keywords" -> Get v name = Get v' name) /\
      exists es es',
        Get v (lit "keywords") = Some (JArray es) /\
        Get v' (lit "keywords") = Some (JArray es') /\
        Forall2
          (fun e e' =>
             Get e' (lit "phonetic") = None /\
             forall name, name <> lit "phonetic" -> Get e name = Get e' name)
          es es'
  | _, _ => False
  end.
Proof.
  unfold Analyze.parseAIResponse, Part000.parseAIResponse,
    Analyze.parse_candidate, Part000.parse_candidate.
  destruct (jsonMatch text) as [candidate|]; [|reflexivity].
  destruct (JSON_parse candidate) as [[| | | | |parsed]|];
    try reflexivity.
  rewrite coerce_spec, coerce_four_spec.
  destruct (existsb is_null (elements (own (lit "keywords") parsed)));
    cbn [try_catch]; [reflexivity|].
  split.
  - intros name Hn. cbn [Get]. now rewrite !own_set_other by assumption.
  - do 2 eexists. cbn [Get]. rewrite !own_set_same.
    split; [reflexivity|]. split; [reflexivity|].
    unfold slice0. apply Forall2_firstn, entries_differ_in_phonetic.
Qed.

Lemma unknown_provider_named_witness :
  mistral_request_body <> JNull /\
  truthy_opt (Get mistral_request_body (lit "apiKey")) = true /\
  truthy_opt (Get mistral_request_body (lit "prompt")) = true /\
  Get mistral_request_body (lit "provider") = Some (JString (lit "mistral")) /\
  ~ In (lit "mistral") [lit "gemini"; lit "deepseek"; lit "openrouter"] /\
  run offline (Analyze.handler (HttpRequest (lit "POST") (Some mistral_request_body))) =
  (inl (Message 400 (Text (lit "Unknown provider: " ++ lit "mistral"))), []).
Proof.
  assert (N : ~ In (lit "mistral") [lit "gemini"; lit "deepseek"; lit "openrouter"]).
  { intros [H|[H|[H|[]]]]; discriminate H. }
  split; [discriminate|]. split; [reflexivity|]. split; [reflexivity|].
  split; [reflexivity|]. split; [exact N|].
  apply (unknown_provider_named offline mistral_request_body (lit "mistral"));
    [discriminate | reflexivity | reflexivity | reflexivity | exact N].
Defined.

Lemma part000_unknown_provider_witness :
  mistral_request_body <> JNull /\
  truthy_opt (Get mistral_request_body (lit "apiKey")) = true /\
  truthy_opt (Get mistral_request_body (lit "prompt")) = true /\
  Get mistral_request_body (lit "provider") = Some (JString (lit "mistral")) /\
  ~ In (lit "mistral") [lit "gemini"; lit "deepseek"] /\
  run offline (Part000.handler (HttpRequest (lit "POST") (Some mistral_request_body))) =
  (inl (Message 400 (Text (lit "Unknown provider"))), []).
Proof.
  assert (N : ~ In (lit "mistral") [lit "gemini"; lit "deepseek"]).
  { intros [H|[H|[]]]; discriminate H. }
  split; [discriminate|]. split; [reflexivity|]. split; [reflexivity|].
  split; [reflexivity|]. split; [exact N|].
  apply (part000_unknown_provider offline mistral_request_body (lit "mistral"));
    [discriminate | reflexivity | reflexivity | reflexivity | exact N].
Defined.

(** * The body of the outbound request *)




